(** * live-biz-plan: Markdown converter, section reconciliation and lock policy

    A shallow embedding of the pure core of the repository:
    - [lib/markdownUtils]: [serializeToMarkdown], [parseMarkdownToJSON],
      [extractSections];
    - [services/gemini]: the locked-section filter and the document-update
      fallback of [processChatAndDoc];
    - [App.tsx]: the state updaters of [handleDocUpdate] and
      [handleSendMessage].

    JavaScript strings are sequences of UTF-16 code units; they are modelled
    as [list N].  Editor documents are TipTap [JSONContent] trees. *)

From Stdlib Require Import String Ascii NArith ZArith Lia.
From Stdlib Require Import Decimal DecimalNat.
From stdpp Require Import base option list numbers.

Set Default Proof Using "Type".

(** ** JavaScript strings *)

Abbreviation jsstring := (list N).

(** An ASCII literal as a JavaScript string. *)
Definition lit (s : string) : jsstring :=
  List.map N_of_ascii (list_ascii_of_string s).

Definition nl : N := 10%N.

(** ECMAScript [WhiteSpace] and [LineTerminator] code units: the set removed by
    [trim] / [trimEnd] and matched by [\s]. *)
Definition isWhiteSpace (c : N) : bool :=
  match c with
  | 9 | 10 | 11 | 12 | 13 | 32 | 160 | 5760
  | 8232 | 8233 | 8239 | 8287 | 12288 | 65279 => true
  | _ => (8192 <=? c) && (c <=? 8202)
  end%N.

(** [\d] without the unicode flag: ASCII digits. *)
Definition isDigit (c : N) : bool := ((48 <=? c) && (c <=? 57))%N.

Fixpoint dropWhile (p : N -> bool) (s : jsstring) : jsstring :=
  match s with
  | [] => []
  | c :: r => if p c then dropWhile p r else s
  end.

Fixpoint takeWhile (p : N -> bool) (s : jsstring) : jsstring :=
  match s with
  | [] => []
  | c :: r => if p c then c :: takeWhile p r else []
  end.

Definition trimStart (s : jsstring) : jsstring := dropWhile isWhiteSpace s.
Definition trimEnd (s : jsstring) : jsstring :=
  rev (dropWhile isWhiteSpace (rev s)).
Definition trim (s : jsstring) : jsstring := trimEnd (trimStart s).

Fixpoint startsWith (p s : jsstring) : bool :=
  match p, s with
  | [], _ => true
  | a :: p', b :: s' => (a =? b)%N && startsWith p' s'
  | _ :: _, [] => false
  end.

Definition streq (a b : jsstring) : bool := bool_decide (a = b).

(** A string used as a condition: the empty string is falsy. *)
Definition truthy (s : jsstring) : bool :=
  match s with [] => false | _ => true end.

(** [s || ''] on an optional string. *)
Definition orEmpty (s : option jsstring) : jsstring := default [] s.

(** [s.split('\n')]. *)
Fixpoint split (s : jsstring) : list jsstring :=
  match s with
  | [] => [[]]
  | c :: r =>
      if (c =? nl)%N then [] :: split r
      else match split r with
           | h :: t => (c :: h) :: t
           | [] => [[c]]
           end
  end.

(** [xs.join(sep)]. *)
Fixpoint join (sep : jsstring) (xs : list jsstring) : jsstring :=
  match xs with
  | [] => []
  | [x] => x
  | x :: r => x ++ sep ++ join sep r
  end.

(** ['#'.repeat(n)]. *)
Definition repeatStr (s : jsstring) (n : nat) : jsstring :=
  concat (replicate n s).

Fixpoint uintCodes (d : uint) : jsstring :=
  match d with
  | Nil => []
  | D0 d => 48%N :: uintCodes d
  | D1 d => 49%N :: uintCodes d
  | D2 d => 50%N :: uintCodes d
  | D3 d => 51%N :: uintCodes d
  | D4 d => 52%N :: uintCodes d
  | D5 d => 53%N :: uintCodes d
  | D6 d => 54%N :: uintCodes d
  | D7 d => 55%N :: uintCodes d
  | D8 d => 56%N :: uintCodes d
  | D9 d => 57%N :: uintCodes d
  end.

(** The decimal rendering of an array index inside a template literal. *)
Definition numToString (n : nat) : jsstring := uintCodes (Nat.to_uint n).

(** *** The regular expressions of the converter

    Every pattern is anchored at the start of the line.  Each function returns
    the text after the match, or [None] when the pattern does not match.  In
    [#+\s] and [\d+\.\s] the repeated class is disjoint from the character
    that must follow it, so the greedy run is the only candidate match. *)

(** [/^#+\s/] *)
Definition reHashesWs (s : jsstring) : option jsstring :=
  match takeWhile (N.eqb 35) s, dropWhile (N.eqb 35) s with
  | _ :: _, w :: r => if isWhiteSpace w then Some r else None
  | _, _ => None
  end.

(** [/^#\s/] *)
Definition reHashWs (s : jsstring) : option jsstring :=
  match s with
  | c :: w :: r => if (c =? 35)%N && isWhiteSpace w then Some r else None
  | _ => None
  end.

(** [/^[-*]\s/] *)
Definition reBulletWs (s : jsstring) : option jsstring :=
  match s with
  | c :: w :: r =>
      if ((c =? 45) || (c =? 42))%N && isWhiteSpace w then Some r else None
  | _ => None
  end.

(** [/^\d+\.\s/] *)
Definition reOrderedWs (s : jsstring) : option jsstring :=
  match takeWhile isDigit s, dropWhile isDigit s with
  | _ :: _, d :: w :: r =>
      if (d =? 46)%N && isWhiteSpace w then Some r else None
  | _, _ => None
  end.

(** [/^>\s/] *)
Definition reQuoteWs (s : jsstring) : option jsstring :=
  match s with
  | c :: w :: r => if (c =? 62)%N && isWhiteSpace w then Some r else None
  | _ => None
  end.

(** [s.replace(re, '')] for an anchored, non-global pattern. *)
Definition replaceRe (re : jsstring -> option jsstring) (s : jsstring)
  : jsstring := default s (re s).

(** [re.test(s)] *)
Definition testRe (re : jsstring -> option jsstring) (s : jsstring) : bool :=
  bool_decide (is_Some (re s)).

(** [s.match(/^#+/)?.[0].length]: the length of the leading run of hashes. *)
Definition hashRun (s : jsstring) : nat := length (takeWhile (N.eqb 35) s).

(** ** TipTap documents *)

(** A [JSONContent] node with the fields the converter reads: [type],
    [attrs.level], [content], [text] and the [type] of each mark. *)
#[local] Unset Elimination Schemes.
Inductive JSONContent : Type :=
  Node { type : option jsstring;
         level : option nat;
         content : option (list JSONContent);
         text : option jsstring;
         marks : option (list jsstring) }.
#[local] Set Elimination Schemes.

Definition textNode (t : jsstring) : JSONContent :=
  Node (Some (lit "text")) None None (Some t) None.

Definition typed (ty : string) (kids : option (list JSONContent))
  : JSONContent := Node (Some (lit ty)) None kids None None.

Definition isType (ty : string) (n : JSONContent) : bool :=
  bool_decide (type n = Some (lit ty)).

(** [node.content?.[0]] *)
Definition firstChild (n : JSONContent) : option JSONContent :=
  content n ≫= head.

(** [node.content?.[0]?.text || ''] *)
Definition firstText (n : JSONContent) : jsstring :=
  orEmpty (firstChild n ≫= text).

(** [node.content?.[0]?.content?.[0]?.text || ''] *)
Definition firstText2 (n : JSONContent) : jsstring :=
  orEmpty ((firstChild n ≫= firstChild) ≫= text).

(** ** serializeToMarkdown *)

(** The body of [c.marks.forEach]: one mark applied to the text built so far.
    The three tests run in the order of the source. *)
Definition applyMark (t m : jsstring) : jsstring :=
  let t := if streq m (lit "bold") then lit "**" ++ t ++ lit "**" else t in
  let t := if streq m (lit "italic") then lit "*" ++ t ++ lit "*" else t in
  let t := if streq m (lit "code") then lit "`" ++ t ++ lit "`" else t in
  t.

(** The callback mapped over the runs of a paragraph. *)
Definition serializeRun (c : JSONContent) : jsstring :=
  if isType "text" c then
    let t := orEmpty (text c) in
    match marks c with
    | Some ms => foldl applyMark t ms
    | None => t
    end
  else [].

(** The callback mapped over [json.content]: one block to its Markdown. *)
Definition serializeNode (node : JSONContent) : jsstring :=
  if isType "heading" node then
    let lvl := match level node with Some (S n) => S n | _ => 1 end in
    let txt := orEmpty ((fun cs => concat (map (fun c => orEmpty (text c)) cs))
                          <$> content node) in
    repeatStr (lit "#") lvl ++ lit " " ++ txt ++ [nl; nl]
  else if isType "paragraph" node then
    let pText := orEmpty ((fun cs => concat (map serializeRun cs))
                            <$> content node) in
    if truthy pText then pText ++ [nl; nl] else [nl]
  else if isType "bulletList" node then
    orEmpty ((fun lis => join [nl] (map (fun li => lit "- " ++ firstText2 li) lis))
               <$> content node) ++ [nl; nl]
  else if isType "orderedList" node then
    orEmpty ((fun lis =>
                join [nl] (imap (fun i li =>
                                   numToString (i + 1) ++ lit ". " ++ firstText2 li)
                                lis))
               <$> content node) ++ [nl; nl]
  else if isType "codeBlock" node then
    lit "```" ++ [nl] ++ firstText node ++ [nl] ++ lit "```" ++ [nl; nl]
  else if isType "blockquote" node then
    lit "> " ++ firstText2 node ++ [nl; nl]
  else if isType "horizontalRule" node then
    lit "---" ++ [nl; nl]
  else [].

Definition serializeToMarkdown (json : JSONContent) : jsstring :=
  match content json with
  | None => []
  | Some nodes => trim (concat (map serializeNode nodes))
  end.

(** ** parseMarkdownToJSON *)

(** The two mutable variables of the scan.  [currentList] aliases an element
    of [content]: it is kept as the index of that element, so that an item
    pushed through [currentList] lands in the block stored in [content]. *)
Record ParseState := mkParseState {
  blocks : list JSONContent;
  currentList : option nat
}.

Definition headingNode (lvl : nat) (t : jsstring) : JSONContent :=
  Node (Some (lit "heading")) (Some lvl) (Some [textNode t]) None None.

Definition paragraphNode (t : jsstring) : JSONContent :=
  typed "paragraph" (Some [textNode t]).

Definition listItemNode (t : jsstring) : JSONContent :=
  typed "listItem" (Some [paragraphNode t]).

Definition blockquoteNode (t : jsstring) : JSONContent :=
  typed "blockquote" (Some [paragraphNode t]).

Definition codeBlockNode (t : jsstring) : JSONContent :=
  typed "codeBlock" (Some [textNode t]).

Definition horizontalRuleNode : JSONContent := typed "horizontalRule" None.

Definition docNode (bs : list JSONContent) : JSONContent :=
  typed "doc" (Some bs).

(** [content.push(node)] *)
Definition pushBlock (node : JSONContent) (st : ParseState) : ParseState :=
  mkParseState (blocks st ++ [node]) (currentList st).

(** [node.content?.push(item)] *)
Definition pushChild (item : JSONContent) (node : JSONContent) : JSONContent :=
  match content node with
  | Some kids =>
      Node (type node) (level node) (Some (kids ++ [item])) (text node)
           (marks node)
  | None => node
  end.

(** [!currentList || currentList.type !== ty] *)
Definition needsNewList (ty : string) (st : ParseState) : bool :=
  match currentList st with
  | None => true
  | Some i =>
      match blocks st !! i with
      | Some node => negb (isType ty node)
      | None => true
      end
  end.

(** The body shared by the bullet and the ordered branch: open a list of type
    [ty] unless one is current, then push the item through [currentList]. *)
Definition pushListItem (ty : string) (t : jsstring) (st : ParseState)
  : ParseState :=
  let st1 :=
    if needsNewList ty st then
      mkParseState (blocks st ++ [typed ty (Some [])])
                   (Some (length (blocks st)))
    else st in
  match currentList st1 with
  | Some i =>
      mkParseState (alter (pushChild (listItemNode t)) i (blocks st1))
                   (currentList st1)
  | None => st1
  end.

(** [currentList = null] *)
Definition resetList (st : ParseState) : ParseState :=
  mkParseState (blocks st) None.

(** The [for] loop over the lines.  The inner [fix] is the [while] loop of the
    code-block branch: it consumes raw lines up to the next line that starts
    with a fence, or up to the end of the input, and the scan resumes after
    the fence. *)
Fixpoint parseLines (lines : list jsstring) (st : ParseState) : ParseState :=
  match lines with
  | [] => st
  | raw :: rest =>
      let line := trimEnd raw in
      if negb (truthy line) then parseLines rest st
      else if startsWith (lit "#") line then
        let lvl := match hashRun line with 0 => 1 | n => n end in
        parseLines rest
          (pushBlock (headingNode lvl (replaceRe reHashesWs line)) st)
      else if startsWith (lit "- ") line || startsWith (lit "* ") line then
        parseLines rest
          (pushListItem "bulletList" (replaceRe reBulletWs line) st)
      else if testRe reOrderedWs line then
        parseLines rest
          (pushListItem "orderedList" (replaceRe reOrderedWs line) st)
      else
        let st := resetList st in
        if startsWith (lit "> ") line then
          parseLines rest
            (pushBlock (blockquoteNode (replaceRe reQuoteWs line)) st)
        else if startsWith (lit "```") line then
          (fix consume (ls : list jsstring) (codeContent : jsstring)
             {struct ls} : ParseState :=
             match ls with
             | [] => pushBlock (codeBlockNode (trim codeContent)) st
             | l :: ls' =>
                 if startsWith (lit "```") l then
                   parseLines ls'
                     (pushBlock (codeBlockNode (trim codeContent)) st)
                 else consume ls' (codeContent ++ l ++ [nl])
             end) rest []
        else if streq line (lit "---") || streq line (lit "***") then
          parseLines rest (pushBlock horizontalRuleNode st)
        else
          parseLines rest (pushBlock (paragraphNode line) st)
  end.

Definition parseMarkdownToJSON (markdown : jsstring) : JSONContent :=
  docNode (blocks (parseLines (split markdown) (mkParseState [] None))).

(** ** extractSections *)

Definition extractSections (markdown : jsstring) : list jsstring :=
  map (fun l => trim (replaceRe reHashWs l))
      (List.filter (startsWith (lit "# ")) (split markdown)).

(** Several lines as one Markdown text. *)
Definition unlines (ls : list jsstring) : jsstring := join [nl] ls.

(** ** Section metadata and the document session (types.ts) *)

(** Timestamps are [Date.now()] readings, milliseconds since the epoch, or the
    literal [0] given to scaffolded sections: natural numbers. *)
Record SectionMeta := mkSectionMeta {
  id : jsstring;
  editedAt : N;
  locked : bool
}.

Record DocumentState := mkDocumentState {
  markdown : jsstring;
  json : JSONContent;
  sections : list SectionMeta;
  lastUpdated : N
}.

(** ** Lock policy (processChatAndDoc, step 1) *)

(** [1000 * 60 * 2] *)
Definition recencyWindow : Z := (1000 * 60 * 2)%Z.

(** The predicate of the filter:
    [s.locked || (Date.now() - s.editedAt < 1000 * 60 * 2 && s.editedAt > 0)]. *)
Definition isLocked (now : N) (s : SectionMeta) : bool :=
  locked s
  || ((Z.of_N now - Z.of_N (editedAt s) <? recencyWindow)%Z
      && (0 <? editedAt s)%N).

Definition lockedSections (now : N) (sectionsMeta : list SectionMeta)
  : list jsstring :=
  map id (List.filter (isLocked now) sectionsMeta).

(** ** Section reconciliation (App.tsx) *)

(** [prev.sections.find(s => s.id === header)] *)
Definition findSection (header : jsstring) (prev : list SectionMeta)
  : option SectionMeta :=
  List.find (fun s => streq (id s) header) prev.

(** The map callback of [handleDocUpdate]: the edit comes from the user. *)
Definition reconcileUser (now : N) (prev : list SectionMeta)
  (currentHeaders : list jsstring) : list SectionMeta :=
  map (fun header =>
         match findSection header prev with
         | Some existing =>
             mkSectionMeta (id existing) now (locked existing)
         | None => mkSectionMeta header now false
         end) currentHeaders.

(** The map callback of [handleSendMessage]: the document was rewritten by the
    AI collaborator. *)
Definition reconcileAI (now : N) (prev : list SectionMeta)
  (currentHeaders : list jsstring) : list SectionMeta :=
  map (fun header =>
         match findSection header prev with
         | Some existing => existing
         | None => mkSectionMeta header now false
         end) currentHeaders.

(** The two callbacks under the one signature the specification uses. *)
Definition reconcile (previousMeta : list SectionMeta)
  (currentTitles : list jsstring) (now : N) (editedByUser : bool)
  : list SectionMeta :=
  if editedByUser then reconcileUser now previousMeta currentTitles
  else reconcileAI now previousMeta currentTitles.

(** ** Session updates (App.tsx) *)

(** The state updater of [handleDocUpdate]. *)
Definition handleDocUpdate (now : N) (newMarkdown : jsstring)
  (newJson : JSONContent) (prev : DocumentState) : DocumentState :=
  let currentHeaders := extractSections newMarkdown in
  if streq (markdown prev) newMarkdown then prev
  else
    mkDocumentState newMarkdown newJson
      (reconcileUser now (sections prev) currentHeaders) now.

(** The editor's [onUpdate]: the blocks are serialized and handed, together
    with the Markdown, to [handleDocUpdate]. *)
Definition applyUserEdit (now : N) (blocksJson : JSONContent)
  (prev : DocumentState) : DocumentState :=
  handleDocUpdate now (serializeToMarkdown blocksJson) blocksJson prev.

(** How the call [ai.models.generateContent] for the document ends: it throws,
    or it returns a response whose [text] may be undefined. *)
Inductive CallOutcome :=
  | Threw
  | Returned (responseText : option jsstring).

(** [processChatAndDoc], step 2: [updatedMarkdown] starts as
    [currentMarkdown]; a response with a non-empty text replaces it; a thrown
    error is caught and logged. *)
Definition updatedDocumentMarkdown (currentMarkdown : jsstring)
  (docCall : CallOutcome) : jsstring :=
  match docCall with
  | Returned (Some t) => if truthy t then t else currentMarkdown
  | Returned None => currentMarkdown
  | Threw => currentMarkdown
  end.

(** The document part of [handleSendMessage] once [processChatAndDoc] has
    returned: the state updater runs only for a non-empty Markdown. *)
Definition applyRewriteResult (now : N) (newMarkdown : jsstring)
  (prev : DocumentState) : DocumentState :=
  if truthy newMarkdown then
    let currentHeaders := extractSections newMarkdown in
    mkDocumentState newMarkdown (parseMarkdownToJSON newMarkdown)
      (reconcileAI now (sections prev) currentHeaders) now
  else prev.

(** A rewrite request against the session [st], with no user edit while the
    request is pending: the Markdown handed to the collaborator is
    [st.markdown] and the updater runs on [st]. *)
Definition requestRewrite (now : N) (docCall : CallOutcome)
  (st : DocumentState) : DocumentState :=
  applyRewriteResult now (updatedDocumentMarkdown (markdown st) docCall) st.

(** ** The block vocabulary of the converter

    The seven block shapes [parseMarkdownToJSON] builds, as a data type, and
    their [JSONContent] form. *)

Inductive Block :=
  | Heading (lvl : nat) (t : jsstring)
  | Paragraph (t : jsstring)
  | BulletList (items : list jsstring)
  | OrderedList (items : list jsstring)
  | CodeBlock (t : jsstring)
  | Blockquote (t : jsstring)
  | Divider.

Definition encode (b : Block) : JSONContent :=
  match b with
  | Heading lvl t => headingNode lvl t
  | Paragraph t => paragraphNode t
  | BulletList items => typed "bulletList" (Some (map listItemNode items))
  | OrderedList items => typed "orderedList" (Some (map listItemNode items))
  | CodeBlock t => codeBlockNode t
  | Blockquote t => blockquoteNode t
  | Divider => horizontalRuleNode
  end.

Definition encodeDoc (bs : list Block) : JSONContent :=
  docNode (map encode bs).

(** The subset named by the round-trip law: any of the seven kinds, headings
    of level 1 to 3. *)
Definition inSupportedSubset (bs : list Block) : bool :=
  forallb (fun b => match b with
                    | Heading lvl _ => (1 <=? lvl) && (lvl <=? 3)
                    | _ => true
                    end) bs.

(** *** Texts that survive the line scan *)

Definition singleLine (t : jsstring) : bool :=
  forallb (fun c => negb (c =? nl)%N) t.

(** Non-empty, and the first (last) code unit is not white space. *)
Definition firstIsInk (t : jsstring) : bool :=
  match t with c :: _ => negb (isWhiteSpace c) | [] => false end.
Definition lastIsInk (t : jsstring) : bool := firstIsInk (rev t).

(** A non-empty text on one line with no trailing white space. *)
Definition lineText (t : jsstring) : bool := singleLine t && lastIsInk t.

(** A line text that no earlier branch of the scan claims. *)
Definition plainText (t : jsstring) : bool :=
  lineText t
  && negb (startsWith (lit "#") t)
  && negb (startsWith (lit "- ") t || startsWith (lit "* ") t)
  && negb (testRe reOrderedWs t)
  && negb (startsWith (lit "> ") t)
  && negb (startsWith (lit "```") t)
  && negb (streq t (lit "---") || streq t (lit "***")).

(** Code that is already trimmed and has no line starting with a fence. *)
Definition codeText (t : jsstring) : bool :=
  (negb (truthy t) || (firstIsInk t && lastIsInk t))
  && forallb (fun l => negb (startsWith (lit "```") l)) (split t).

Inductive ListKind := Bullet | Ordered.

Definition sameKind (a : option ListKind) (k : ListKind) : bool :=
  match a, k with
  | Some Bullet, Bullet | Some Ordered, Ordered => true
  | _, _ => false
  end.

Definition listTexts (items : list jsstring) : bool :=
  negb (bool_decide (items = [])) && forallb lineText items.

(** The block sequences the scan reads back.  [open] is the kind of the list
    that is still current when the sequence starts: a heading leaves it as it
    is, a list of the other kind replaces it, every other block clears it.  A
    list of the kind that is still current is not accepted. *)
Fixpoint scannable (open : option ListKind) (bs : list Block) : bool :=
  match bs with
  | [] => true
  | Heading lvl t :: r => (1 <=? lvl) && lineText t && scannable open r
  | Paragraph t :: r => plainText t && scannable None r
  | BulletList items :: r =>
      negb (sameKind open Bullet) && listTexts items
      && scannable (Some Bullet) r
  | OrderedList items :: r =>
      negb (sameKind open Ordered) && listTexts items
      && scannable (Some Ordered) r
  | CodeBlock t :: r => codeText t && scannable None r
  | Blockquote t :: r => lineText t && scannable None r
  | Divider :: r => scannable None r
  end.

(** The final [trim] must not eat into the first block. *)
Definition firstBlockOk (bs : list Block) : bool :=
  match bs with
  | Paragraph t :: _ => firstIsInk t
  | _ => true
  end.

Definition roundTrippable (bs : list Block) : bool :=
  scannable None bs && firstBlockOk bs.

(** The lines a block is written as, before the blank line that ends it. *)
Definition blockLines (b : Block) : list jsstring :=
  match b with
  | Heading lvl t => [repeatStr (lit "#") lvl ++ lit " " ++ t]
  | Paragraph t => [t]
  | BulletList items => map (fun t => lit "- " ++ t) items
  | OrderedList items =>
      imap (fun i t => numToString (i + 1) ++ lit ". " ++ t) items
  | CodeBlock t => lit "```" :: split t ++ [lit "```"]
  | Blockquote t => [lit "> " ++ t]
  | Divider => [lit "---"]
  end.

Fixpoint docLines (bs : list Block) : list jsstring :=
  match bs with
  | [] => []
  | b :: r =>
      blockLines b ++ match r with [] => [] | _ => [] :: docLines r end
  end.

(** *** Mark wrapping, as the specification words it *)

(** Bold, then italic, then code, whatever the stored order. *)
Definition wrapFixedOrder (ms : list jsstring) (t : jsstring) : jsstring :=
  let has m := bool_decide (lit m ∈ ms) in
  let t := if has "bold"%string then lit "**" ++ t ++ lit "**" else t in
  let t := if has "italic"%string then lit "*" ++ t ++ lit "*" else t in
  let t := if has "code"%string then lit "`" ++ t ++ lit "`" else t in
  t.

Definition markDelimiter (m : jsstring) : jsstring :=
  if streq m (lit "bold") then lit "**"
  else if streq m (lit "italic") then lit "*"
  else if streq m (lit "code") then lit "`"
  else [].

(** The text between the delimiters of the marks, outermost mark first. *)
Fixpoint nestMarks (outerFirst : list jsstring) (t : jsstring) : jsstring :=
  match outerFirst with
  | [] => t
  | m :: ms => markDelimiter m ++ nestMarks ms t ++ markDelimiter m
  end.

Definition textRun (t : jsstring) (ms : list jsstring) : JSONContent :=
  Node (Some (lit "text")) None None (Some t) (Some ms).

(** *** Section lines, as the specification words them *)

(** A line that begins with one hash followed by a space. *)
Definition isSectionLine (l : jsstring) : bool :=
  match l with
  | a :: b :: _ => (a =? 35)%N && (b =? 32)%N
  | _ => false
  end.

(** *** The code-block loop as a function of the remaining lines

    The text gathered by the [while] loop from [codeContent] on, and the lines
    left after the closing fence. *)
Fixpoint codeRegion (ls : list jsstring) (codeContent : jsstring)
  : jsstring * list jsstring :=
  match ls with
  | [] => (codeContent, [])
  | l :: ls' =>
      if startsWith (lit "```") l then (codeContent, ls')
      else codeRegion ls' (codeContent ++ l ++ [nl])
  end.

(** The conditions under which a line reaches the branches below the list
    reset. *)
Definition pastLists (line : jsstring) : Prop :=
  truthy line = true
  /\ startsWith (lit "#") line = false
  /\ startsWith (lit "- ") line || startsWith (lit "* ") line = false
  /\ testRe reOrderedWs line = false.

(** *** The state of the scan between two blocks *)

Definition typeName (k : ListKind) : string :=
  match k with
  | Bullet => "bulletList"
  | Ordered => "orderedList"
  end.

(** [currentList] is null, or aliases a block of [content] that is a list of
    kind [k]. *)
Definition scanInv (open : option ListKind) (st : ParseState) : Prop :=
  match open with
  | None => currentList st = None
  | Some k =>
      exists i node,
        currentList st = Some i /\ blocks st !! i = Some node
        /\ type node = Some (lit (typeName k))
  end.

Definition nextOpen (open : option ListKind) (b : Block) : option ListKind :=
  match b with
  | Heading _ _ => open
  | BulletList _ => Some Bullet
  | OrderedList _ => Some Ordered
  | _ => None
  end.

Definition firstLineInk (ls : list jsstring) : bool :=
  match ls with l :: _ => firstIsInk l | [] => false end.

Definition lastLineInk (ls : list jsstring) : bool :=
  match rev ls with l :: _ => lastIsInk l | [] => false end.

(** *** Lines as the scan classifies them *)

(** [!line] *)
Definition isBlankLine (raw : jsstring) : bool := negb (truthy (trimEnd raw)).

(** The test of the bullet branch and of the ordered branch.  A line that
    passes either test does not start with a hash, and an ordered line starts
    with a digit, so the earlier branches do not claim it. *)
Definition isItemLine (k : ListKind) (raw : jsstring) : bool :=
  let line := trimEnd raw in
  match k with
  | Bullet => startsWith (lit "- ") line || startsWith (lit "* ") line
  | Ordered => testRe reOrderedWs line
  end.

(** The text of the item pushed for a list line. *)
Definition itemText (k : ListKind) (raw : jsstring) : jsstring :=
  match k with
  | Bullet => replaceRe reBulletWs (trimEnd raw)
  | Ordered => replaceRe reOrderedWs (trimEnd raw)
  end.

(** ** The section catalog (constants.ts) *)

Definition INITIAL_SECTIONS : list jsstring :=
  [ (* 한 줄 요약 *) [54620; 32; 51460; 32; 50836; 50557];
    (* 문제 *) [47928; 51228];
    (* 해결책 *) [54644; 44208; 52293];
    (* 고객/타겟 *) [44256; 44061; 47; 53440; 44191];
    (* 시장 가설 *) [49884; 51109; 32; 44032; 49444];
    (* 경쟁/대안 *) [44221; 51137; 47; 45824; 50504];
    (* 제품/핵심 기능 *) [51228; 54408; 47; 54645; 49900; 32; 44592; 45733];
    (* 수익 모델 *) [49688; 51061; 32; 47784; 45944];
    (* 마케팅/유통 전략 *)
    [47560; 52992; 54021; 47; 50976; 53685; 32; 51204; 47029];
    (* 운영/실행 계획 *) [50868; 50689; 47; 49892; 54665; 32; 44228; 54925];
    (* 팀 *) [54016];
    (* 재무 가정/지표 *) [51116; 47924; 32; 44032; 51221; 47; 51648; 54364];
    (* 로드맵 *) [47196; 46300; 47605];
    (* 리스크/대응 *) [47532; 49828; 53356; 47; 45824; 51025];
    (* 핵심 KPI *) [54645; 49900; 32; 75; 80; 73] ]%N.

(** [INITIAL_SECTIONS[0]] *)
Definition firstSectionTitle : jsstring := default [] (INITIAL_SECTIONS !! 0).

Definition INITIAL_MARKDOWN : jsstring :=
  lit "# " ++ firstSectionTitle ++ [nl; nl].

Definition INITIAL_SECTION_META : list SectionMeta :=
  [mkSectionMeta firstSectionTitle 0 false].

(** The initial [docState] of [App]; [now] is the [Date.now()] of the first
    render. *)
Definition initialDocState (now : N) : DocumentState :=
  mkDocumentState INITIAL_MARKDOWN (parseMarkdownToJSON INITIAL_MARKDOWN)
    INITIAL_SECTION_META now.

(** ** handleNextSection (App.tsx)

    The handler on the session [st], with no other update between the render
    and the click: the catalog entry at the current section count is appended
    as a new top-level heading, with a metadata entry stamped [0]. *)
Definition handleNextSection (now : N) (st : DocumentState) : DocumentState :=
  let currentSections := extractSections (markdown st) in
  if length INITIAL_SECTIONS <=? length currentSections then st
  else
    match INITIAL_SECTIONS !! length currentSections with
    | Some nextSectionTitle =>
        let newMarkdown :=
          trim (markdown st) ++ [nl; nl] ++ lit "# " ++ nextSectionTitle
          ++ [nl; nl] in
        mkDocumentState newMarkdown (parseMarkdownToJSON newMarkdown)
          (sections st ++ [mkSectionMeta nextSectionTitle 0 false]) now
    | None => st
    end.

(** ** The editor's content sync (NotionEditor)

    The effect that follows a change of [contentMarkdown]: the content to set
    on the editor, or [None] when the editor is left alone. *)
Definition syncContent (isInternalUpdate : bool) (editorJson : JSONContent)
  (contentMarkdown : jsstring) : option JSONContent :=
  if negb isInternalUpdate && truthy contentMarkdown then
    let currentMD := serializeToMarkdown editorJson in
    if negb (streq (trim currentMD) (trim contentMarkdown)) then
      Some (parseMarkdownToJSON contentMarkdown)
    else None
  else None.

(** ** The slash menu (SlashCommand.tsx)

    [navigationHandler]: the selected index after ArrowUp and after ArrowDown
    in a menu of [len] items.  [%] is the remainder that takes the sign of the
    dividend. *)
Definition arrowUp (len selectedIndex : Z) : Z :=
  Z.rem (selectedIndex + len - 1) len.

Definition arrowDown (len selectedIndex : Z) : Z :=
  Z.rem (selectedIndex + 1) len.

(** ** Shapes used to state what the scan produces *)

Definition listBlock (k : ListKind) (items : list jsstring) : Block :=
  match k with
  | Bullet => BulletList items
  | Ordered => OrderedList items
  end.

(** What every block built by [parseMarkdownToJSON] satisfies. *)
Definition parsedBlock (b : Block) : bool :=
  match b with
  | Heading lvl t => (1 <=? lvl) && lineText t
  | Paragraph t => plainText t
  | BulletList items | OrderedList items => listTexts items
  | CodeBlock t => negb (truthy t) || (firstIsInk t && lastIsInk t)
  | Blockquote t => lineText t
  | Divider => true
  end.

(** The list kind that is current after the blocks [bs], starting from
    [open]: a heading keeps it, a list sets it, any other block clears it.
    The result is [None] when some list comes while a list of its own kind is
    current. *)
Fixpoint openAfter (open : option ListKind) (bs : list Block)
  : option (option ListKind) :=
  match bs with
  | [] => Some open
  | Heading _ _ :: r => openAfter open r
  | BulletList _ :: r =>
      if sameKind open Bullet then None else openAfter (Some Bullet) r
  | OrderedList _ :: r =>
      if sameKind open Ordered then None else openAfter (Some Ordered) r
  | _ :: r => openAfter None r
  end.

(** No list follows a list of its own kind with only headings between. *)
Definition listsSeparated (bs : list Block) : bool :=
  bool_decide (is_Some (openAfter None bs)).

(** No line of a code text starts with a fence. *)
Definition fenceFree (b : Block) : bool :=
  match b with
  | CodeBlock t => forallb (fun l => negb (startsWith (lit "```") l)) (split t)
  | _ => true
  end.

(** The state of the scan at any line: the blocks pushed so far are parsed
    blocks with their lists separated, and [currentList] is set exactly when
    a list kind is current after them, to a block that is a list of that
    kind. *)
Definition parseInv (st : ParseState) : Prop :=
  exists bs open,
    blocks st = map encode bs
    /\ forallb parsedBlock bs = true
    /\ openAfter None bs = Some open
    /\ match currentList st with
       | None => open = None
       | Some i =>
           exists k items, open = Some k /\ bs !! i = Some (listBlock k items)
       end.

(** The node types [serializeNode] has a case for. *)
Definition isSerialized (node : JSONContent) : bool :=
  isType "heading" node || isType "paragraph" node
  || isType "bulletList" node || isType "orderedList" node
  || isType "codeBlock" node || isType "blockquote" node
  || isType "horizontalRule" node.

(** The section titles a block contributes to its serialized document: the
    text of a level-1 heading, and every line of a code block that itself
    begins with a hash and a space. *)
Definition blockSections (b : Block) : list jsstring :=
  match b with
  | Heading 1 t => [trim t]
  | CodeBlock t => extractSections t
  | _ => []
  end.

(** A bullet line with either marker. *)
Definition bulletLine (item : bool * jsstring) : jsstring :=
  (if item.1 then lit "* " else lit "- ") ++ item.2.

(** No entry carries the explicit lock flag. *)
Definition neverFlagged (st : DocumentState) : bool :=
  forallb (fun s => negb (locked s)) (sections st).

(** The session after pressing the next-section button at each of the given
    times, oldest first. *)
Definition pressNext (times : list N) (st : DocumentState) : DocumentState :=
  foldl (fun st now => handleNextSection now st) st times.

(** * Properties *)

(** ** String lemmas *)

Section StringFacts.
Implicit Types (s t : jsstring) (p : N -> bool).

Lemma takeWhile_app p s t :
  forallb p s = true -> takeWhile p (s ++ t) = s ++ takeWhile p t.
Proof.
  induction s as [|c s IH]; simpl; [done|].
  intros [Hc Hs]%andb_prop. rewrite Hc. by rewrite IH.
Qed.

Lemma dropWhile_app p s t :
  forallb p s = true -> dropWhile p (s ++ t) = dropWhile p t.
Proof.
  induction s as [|c s IH]; simpl; [done|].
  intros [Hc Hs]%andb_prop. rewrite Hc. by apply IH.
Qed.

Lemma repeatStr_hash n : repeatStr (lit "#") n = replicate n 35%N.
Proof. unfold repeatStr. induction n as [|n IH]; simpl; [done|]. by rewrite IH. Qed.

Lemma forallb_replicate p n c : p c = true -> forallb p (replicate n c) = true.
Proof. intros Hc. induction n as [|n IH]; simpl; [done|]. by rewrite Hc. Qed.

Lemma lastIsInk_snoc s c : lastIsInk (s ++ [c]) = negb (isWhiteSpace c).
Proof. unfold lastIsInk. by rewrite rev_app_distr. Qed.

Lemma lastIsInk_inv s :
  lastIsInk s = true -> exists s' c, s = s' ++ [c] /\ isWhiteSpace c = false.
Proof.
  unfold lastIsInk. destruct (rev s) as [|c r] eqn:E; simpl; [done|].
  intros Hc%negb_true_iff. exists (rev r), c. split; [|done].
  by rewrite <- (rev_involutive s), E.
Qed.

Lemma lastIsInk_app s t : lastIsInk t = true -> lastIsInk (s ++ t) = true.
Proof.
  intros (t' & c & -> & Hc)%lastIsInk_inv.
  by rewrite app_assoc, lastIsInk_snoc, Hc.
Qed.

Lemma trimEnd_ink s : lastIsInk s = true -> trimEnd s = s.
Proof.
  intros (s' & c & -> & Hc)%lastIsInk_inv. unfold trimEnd.
  rewrite rev_app_distr. simpl. rewrite Hc. simpl.
  by rewrite rev_involutive.
Qed.

Lemma truthy_ink s : lastIsInk s = true -> truthy s = true.
Proof. intros (s' & c & -> & _)%lastIsInk_inv. by destruct s'. Qed.

Lemma trimEnd_nil : trimEnd [] = [].
Proof. reflexivity. Qed.
End StringFacts.

(** ** Lines: [split] and [join] *)

Section Lines.
Implicit Types (s t sep : jsstring) (ls xs ys : list jsstring).

Lemma join_cons sep x xs :
  xs <> [] -> join sep (x :: xs) = x ++ sep ++ join sep xs.
Proof. by destruct xs. Qed.

Lemma join_app sep xs ys :
  xs <> [] -> ys <> [] ->
  join sep (xs ++ ys) = join sep xs ++ sep ++ join sep ys.
Proof.
  intros Hx Hy. induction xs as [|x xs IH]; [done|].
  destruct xs as [|x' xs].
  - simpl app. by rewrite join_cons.
  - change ((x :: x' :: xs) ++ ys) with (x :: ((x' :: xs) ++ ys)).
    rewrite !join_cons by done. rewrite IH by done.
    by rewrite <- !app_assoc.
Qed.

Lemma split_nonempty s : split s <> [].
Proof.
  induction s as [|c s IH]; simpl; [done|].
  destruct (c =? nl)%N; [done|]. by destruct (split s).
Qed.

Lemma join_split s : join [nl] (split s) = s.
Proof.
  induction s as [|c s IH]; simpl; [done|].
  destruct (N.eqb_spec c nl) as [->|Hc].
  - rewrite join_cons by apply split_nonempty. simpl. by rewrite IH.
  - destruct (split s) as [|h tl] eqn:E; [by apply split_nonempty in E|].
    rewrite <- IH. by destruct tl.
Qed.

Lemma split_singleLine s : singleLine s = true -> split s = [s].
Proof.
  induction s as [|c s IH]; simpl; [done|].
  intros [Hc Hs]%andb_prop. apply negb_true_iff in Hc. rewrite Hc.
  by rewrite IH.
Qed.

Lemma split_lines_single s : forallb singleLine (split s) = true.
Proof.
  induction s as [|c s IH]; simpl; [done|].
  destruct (c =? nl)%N eqn:Hc; [done|].
  destruct (split s) as [|h tl]; simpl in *; [by rewrite Hc|].
  rewrite Hc. simpl. done.
Qed.

Lemma split_app_nl s t : split (s ++ nl :: t) = split s ++ split t.
Proof.
  induction s as [|c s IH]; simpl; [done|].
  destruct (c =? nl)%N; rewrite IH; [done|].
  destruct (split s) as [|h tl] eqn:E; [by apply split_nonempty in E|done].
Qed.

Lemma split_join ls :
  ls <> [] -> forallb singleLine ls = true -> split (join [nl] ls) = ls.
Proof.
  induction ls as [|l ls IH]; [done|].
  intros _ [Hl Hls]%andb_prop. destruct ls as [|l' ls].
  - by apply split_singleLine.
  - rewrite join_cons by done. change ([nl] ++ ?x) with (nl :: x).
    rewrite split_app_nl, IH by done. by rewrite split_singleLine.
Qed.

Lemma singleLine_app s t : singleLine (s ++ t) = singleLine s && singleLine t.
Proof. apply forallb_app. Qed.

(** The text the code loop gathers from lines. *)
Lemma gathered_lines ls :
  ls <> [] -> concat (map (fun l => l ++ [nl]) ls) = join [nl] ls ++ [nl].
Proof.
  induction ls as [|l ls IH]; [done|]. intros _. destruct ls as [|l' ls].
  - simpl. by rewrite app_nil_r.
  - rewrite join_cons by done. cbn [map concat].
    cbn [map concat] in IH. rewrite IH by done.
    by rewrite <- !app_assoc.
Qed.

Lemma codeRegion_lines ls rest acc :
  forallb (fun l => negb (startsWith (lit "```") l)) ls = true ->
  codeRegion (ls ++ lit "```" :: rest) acc
  = (acc ++ concat (map (fun l => l ++ [nl]) ls), rest).
Proof.
  revert acc. induction ls as [|l ls IH]; intros acc.
  - intros _. simpl. by rewrite app_nil_r.
  - intros [Hl Hls]%andb_prop. apply negb_true_iff in Hl.
    cbn [app codeRegion]. rewrite Hl, IH by done.
    cbn [map concat]. by rewrite <- !app_assoc.
Qed.

(** [trim] of a text that begins and ends in ink, followed by line ends. *)
Lemma trimStart_ink s : firstIsInk s = true -> trimStart s = s.
Proof.
  unfold trimStart. destruct s as [|c s]; [done|]. simpl.
  by intros ->%negb_true_iff.
Qed.

Lemma firstIsInk_app s t : firstIsInk s = true -> firstIsInk (s ++ t) = true.
Proof. by destruct s. Qed.

Lemma trimEnd_app_ws s t :
  forallb isWhiteSpace t = true -> trimEnd (s ++ t) = trimEnd s.
Proof.
  intros Ht. unfold trimEnd. rewrite rev_app_distr.
  rewrite dropWhile_app; [done|].
  apply forallb_forall. intros c Hc%in_rev.
  by apply (proj1 (forallb_forall _ _) Ht).
Qed.

Lemma trim_block s t :
  firstIsInk s = true -> lastIsInk s = true ->
  forallb isWhiteSpace t = true -> trim (s ++ t) = s.
Proof.
  intros Hf Hl Ht. unfold trim.
  rewrite trimStart_ink by by apply firstIsInk_app.
  rewrite trimEnd_app_ws by done. by apply trimEnd_ink.
Qed.

Lemma trim_ws t : forallb isWhiteSpace t = true -> trim t = [].
Proof.
  intros Ht. unfold trim, trimStart.
  rewrite <- (app_nil_r t) at 1. by rewrite dropWhile_app.
Qed.
End Lines.

(** ** One step of the line scan *)

Ltac lits :=
  repeat match goal with
    | |- context [lit ?s] =>
        let v := eval vm_compute in (lit s) in change (lit s) with v
    end.

Section ScanSteps.
Implicit Types (raw line : jsstring) (rest : list jsstring) (st : ParseState).

Lemma parseLines_code rest st :
  forall acc,
    (fix consume (ls : list jsstring) (codeContent : jsstring)
       {struct ls} : ParseState :=
       match ls with
       | [] => pushBlock (codeBlockNode (trim codeContent)) st
       | l :: ls' =>
           if startsWith (lit "```") l then
             parseLines ls' (pushBlock (codeBlockNode (trim codeContent)) st)
           else consume ls' (codeContent ++ l ++ [nl])
       end) rest acc
    = parseLines (codeRegion rest acc).2
        (pushBlock (codeBlockNode (trim (codeRegion rest acc).1)) st).
Proof.
  induction rest as [|l ls IH]; intros acc; [done|].
  cbn [codeRegion]. destruct (startsWith (lit "```") l); [done|]. apply IH.
Qed.

Lemma step_blank raw rest st :
  truthy (trimEnd raw) = false ->
  parseLines (raw :: rest) st = parseLines rest st.
Proof. intros H. cbn [parseLines]. by rewrite H. Qed.

Lemma startsWith_truthy p s :
  truthy p = true -> startsWith p s = true -> truthy s = true.
Proof. by destruct p, s. Qed.

Lemma step_heading raw rest st :
  startsWith (lit "#") (trimEnd raw) = true ->
  parseLines (raw :: rest) st
  = parseLines rest
      (pushBlock
         (headingNode (match hashRun (trimEnd raw) with 0 => 1 | n => n end)
                      (replaceRe reHashesWs (trimEnd raw))) st).
Proof.
  intros H. cbn [parseLines].
  rewrite (startsWith_truthy (lit "#") _ eq_refl H). simpl negb. cbv iota.
  by rewrite H.
Qed.

Lemma step_bullet raw rest st :
  startsWith (lit "#") (trimEnd raw) = false ->
  startsWith (lit "- ") (trimEnd raw) || startsWith (lit "* ") (trimEnd raw)
  = true ->
  parseLines (raw :: rest) st
  = parseLines rest
      (pushListItem "bulletList" (replaceRe reBulletWs (trimEnd raw)) st).
Proof.
  intros H0 H. cbn [parseLines].
  assert (truthy (trimEnd raw) = true) as ->.
  { destruct (trimEnd raw); [|done]. by vm_compute in H. }
  simpl negb. cbv iota. by rewrite H0, H.
Qed.

Lemma testRe_true re s : testRe re s = true -> truthy s = true \/ re [] <> None.
Proof. destruct s; [right|by left]. unfold testRe in H.
  apply bool_decide_eq_true in H. by destruct H as [? ->]. Qed.

Lemma step_ordered raw rest st :
  startsWith (lit "#") (trimEnd raw) = false ->
  startsWith (lit "- ") (trimEnd raw) || startsWith (lit "* ") (trimEnd raw)
  = false ->
  testRe reOrderedWs (trimEnd raw) = true ->
  parseLines (raw :: rest) st
  = parseLines rest
      (pushListItem "orderedList" (replaceRe reOrderedWs (trimEnd raw)) st).
Proof.
  intros H0 H1 H. cbn [parseLines].
  assert (truthy (trimEnd raw) = true) as ->.
  { destruct (testRe_true _ _ H) as [?|?]; done. }
  simpl negb. cbv iota. by rewrite H0, H1, H.
Qed.

Lemma step_quote raw rest st :
  pastLists (trimEnd raw) ->
  startsWith (lit "> ") (trimEnd raw) = true ->
  parseLines (raw :: rest) st
  = parseLines rest
      (pushBlock (blockquoteNode (replaceRe reQuoteWs (trimEnd raw)))
                 (resetList st)).
Proof.
  intros (Ht & H0 & H1 & H2) H. cbn [parseLines].
  rewrite Ht. simpl negb. cbv iota. by rewrite H0, H1, H2, H.
Qed.

Lemma step_fence raw rest st :
  pastLists (trimEnd raw) ->
  startsWith (lit "> ") (trimEnd raw) = false ->
  startsWith (lit "```") (trimEnd raw) = true ->
  parseLines (raw :: rest) st
  = parseLines (codeRegion rest []).2
      (pushBlock (codeBlockNode (trim (codeRegion rest []).1))
                 (resetList st)).
Proof.
  intros (Ht & H0 & H1 & H2) H3 H. cbn [parseLines].
  rewrite Ht. simpl negb. cbv iota. rewrite H0, H1, H2, H3, H.
  apply parseLines_code.
Qed.

Lemma step_rule raw rest st :
  pastLists (trimEnd raw) ->
  startsWith (lit "> ") (trimEnd raw) = false ->
  startsWith (lit "```") (trimEnd raw) = false ->
  streq (trimEnd raw) (lit "---") || streq (trimEnd raw) (lit "***") = true ->
  parseLines (raw :: rest) st
  = parseLines rest (pushBlock horizontalRuleNode (resetList st)).
Proof.
  intros (Ht & H0 & H1 & H2) H3 H4 H. cbn [parseLines].
  rewrite Ht. simpl negb. cbv iota. by rewrite H0, H1, H2, H3, H4, H.
Qed.

Lemma step_paragraph raw rest st :
  pastLists (trimEnd raw) ->
  startsWith (lit "> ") (trimEnd raw) = false ->
  startsWith (lit "```") (trimEnd raw) = false ->
  streq (trimEnd raw) (lit "---") || streq (trimEnd raw) (lit "***") = false ->
  parseLines (raw :: rest) st
  = parseLines rest (pushBlock (paragraphNode (trimEnd raw)) (resetList st)).
Proof.
  intros (Ht & H0 & H1 & H2) H3 H4 H. cbn [parseLines].
  rewrite Ht. simpl negb. cbv iota. by rewrite H0, H1, H2, H3, H4, H.
Qed.
End ScanSteps.

(** ** Reading one block back *)

Section ReadBack.
Implicit Types (t raw : jsstring) (rest : list jsstring) (st : ParseState).

Lemma digit_not c d : isDigit d = true -> (c <? 48)%N = true -> (c =? d)%N = false.
Proof.
  unfold isDigit. intros [H1 _]%andb_prop H2.
  apply N.leb_le in H1. apply N.ltb_lt in H2. apply N.eqb_neq. lia.
Qed.

Lemma uintCodes_digits d : forallb isDigit (uintCodes d) = true.
Proof. induction d; simpl; done. Qed.

Lemma numToString_digits n :
  exists d ds, numToString n = d :: ds /\ isDigit d = true
               /\ forallb isDigit ds = true.
Proof.
  unfold numToString. pose proof (uintCodes_digits (Nat.to_uint n)) as H.
  destruct (Nat.to_uint n) as [|u|u|u|u|u|u|u|u|u|u] eqn:E;
    try (simpl in *; eexists _, _; split; [reflexivity|by split]).
  exfalso. pose proof (Unsigned.of_to n) as Hn. rewrite E in Hn.
  simpl in Hn. subst n. discriminate E.
Qed.

Lemma heading_line n t :
  let raw := repeatStr (lit "#") (S n) ++ lit " " ++ t in
  startsWith (lit "#") raw = true
  /\ hashRun raw = S n
  /\ reHashesWs raw = Some t.
Proof.
  intros raw. subst raw. rewrite repeatStr_hash. lits.
  assert (Hall : forallb (N.eqb 35) (replicate (S n) 35%N) = true)
    by by apply forallb_replicate.
  split; [done|]. unfold hashRun, reHashesWs.
  rewrite takeWhile_app, dropWhile_app by done. simpl.
  by rewrite app_nil_r, length_replicate.
Qed.

Lemma ordered_line k t :
  let raw := numToString k ++ lit ". " ++ t in
  startsWith (lit "#") raw = false
  /\ startsWith (lit "- ") raw || startsWith (lit "* ") raw = false
  /\ reOrderedWs raw = Some t.
Proof.
  intros raw. subst raw.
  destruct (numToString_digits k) as (d & ds & -> & Hd & Hds). lits.
  cbn [startsWith app]. rewrite !(digit_not _ d Hd) by done.
  cbn [andb orb].
  split; [done|]. split; [done|]. unfold reOrderedWs.
  change (d :: ds ++ ?x) with ((d :: ds) ++ x).
  rewrite takeWhile_app, dropWhile_app by (simpl; by rewrite Hd).
  done.
Qed.

Lemma pastLists_head c t :
  (c =? 35)%N = false -> (c =? 45)%N = false -> (c =? 42)%N = false ->
  isDigit c = false -> pastLists (c :: t).
Proof.
  intros H1 H2 H3 H4. unfold pastLists. lits. cbn [startsWith truthy].
  rewrite (N.eqb_sym 35), (N.eqb_sym 45), (N.eqb_sym 42), H1, H2, H3.
  repeat split. unfold testRe, reOrderedWs. simpl. by rewrite H4.
Qed.

Lemma plainText_inv t :
  plainText t = true ->
  lineText t = true /\ pastLists t
  /\ startsWith (lit "> ") t = false
  /\ startsWith (lit "```") t = false
  /\ streq t (lit "---") || streq t (lit "***") = false.
Proof.
  unfold plainText. rewrite !andb_true_iff, !negb_true_iff.
  intros ((((((Hl & H1) & H2) & H3) & H4) & H5) & H6).
  repeat split; try done.
  apply andb_prop in Hl as [_ Hl]. by apply truthy_ink.
Qed.

Lemma lineText_inv t :
  lineText t = true -> singleLine t = true /\ lastIsInk t = true.
Proof. apply andb_prop. Qed.

(** *** Pushing through [currentList] *)

Lemma isType_typed ty kids : isType ty (typed ty kids) = true.
Proof. by apply bool_decide_eq_true_2. Qed.

Lemma pushListItem_new ty t st :
  needsNewList ty st = true ->
  pushListItem ty t st
  = mkParseState (blocks st ++ [typed ty (Some [listItemNode t])])
                 (Some (length (blocks st))).
Proof.
  intros H. unfold pushListItem. rewrite H. cbn [currentList blocks].
  f_equal. rewrite <- (Nat.add_0_r (length (blocks st))).
  by rewrite alter_app_r.
Qed.

Lemma pushListItem_current ty t B items :
  pushListItem ty t
    (mkParseState (B ++ [typed ty (Some items)]) (Some (length B)))
  = mkParseState (B ++ [typed ty (Some (items ++ [listItemNode t]))])
                 (Some (length B)).
Proof.
  unfold pushListItem, needsNewList. cbn [currentList blocks].
  rewrite list_lookup_middle by done. rewrite isType_typed.
  cbn [negb currentList blocks]. f_equal.
  rewrite <- (Nat.add_0_r (length B)). by rewrite alter_app_r.
Qed.

Lemma needsNewList_other k k' st :
  scanInv (Some k) st -> sameKind (Some k) k' = false ->
  needsNewList (typeName k') st = true.
Proof.
  intros (i & node & Hc & Hn & Ht) Hk. unfold needsNewList.
  rewrite Hc, Hn. unfold isType. rewrite Ht.
  apply negb_true_iff, bool_decide_eq_false_2.
  by destruct k, k'.
Qed.

Lemma needsNewList_open o k st :
  scanInv o st -> sameKind o k = false ->
  needsNewList (typeName k) st = true.
Proof.
  destruct o as [k0|]; [apply needsNewList_other|].
  intros H _. unfold needsNewList. by rewrite H.
Qed.

Lemma scanInv_pushBlock o node st : scanInv o st -> scanInv o (pushBlock node st).
Proof.
  destruct o as [k|]; [|done]. intros (i & n & Hc & Hn & Ht).
  exists i, n. repeat split; [done| |done]. by apply lookup_app_l_Some.
Qed.

Lemma scanInv_list k B items :
  scanInv (Some k)
    (mkParseState (B ++ [typed (typeName k) (Some items)]) (Some (length B))).
Proof.
  exists (length B), (typed (typeName k) (Some items)).
  split; [done|]. split; [|done]. cbn [blocks].
  by apply list_lookup_middle.
Qed.

(** *** List lines *)

Lemma bullet_line t :
  lastIsInk t = true ->
  let raw := lit "- " ++ t in
  trimEnd raw = raw
  /\ startsWith (lit "#") raw = false
  /\ startsWith (lit "- ") raw || startsWith (lit "* ") raw = true
  /\ replaceRe reBulletWs raw = t.
Proof.
  intros Ht raw. subst raw. split; [|done].
  apply trimEnd_ink. by apply lastIsInk_app.
Qed.

Lemma read_bullet_items items :
  forall done B rest,
    forallb lineText items = true ->
    parseLines (map (fun t => lit "- " ++ t) items ++ rest)
      (mkParseState
         (B ++ [typed "bulletList" (Some (map listItemNode done))])
         (Some (length B)))
    = parseLines rest
        (mkParseState
           (B ++ [typed "bulletList"
                    (Some (map listItemNode (done ++ items)))])
           (Some (length B))).
Proof.
  induction items as [|t items IH]; intros done B rest.
  - intros _. simpl. by rewrite app_nil_r.
  - intros [[_ Ht]%lineText_inv Hts]%andb_prop.
    destruct (bullet_line t Ht) as (Hraw & H0 & H1 & Hr).
    cbn [map app]. rewrite step_bullet; rewrite Hraw; [|done..].
    rewrite Hr, pushListItem_current.
    change [listItemNode t] with (map listItemNode [t]).
    rewrite <- map_app, IH by done. by rewrite <- app_assoc.
Qed.

Lemma read_bullets st items rest :
  needsNewList "bulletList" st = true ->
  listTexts items = true ->
  parseLines (blockLines (BulletList items) ++ rest) st
  = parseLines rest
      (mkParseState (blocks st ++ [encode (BulletList items)])
                    (Some (length (blocks st)))).
Proof.
  intros Hnew [Hne Hall]%andb_prop.
  destruct items as [|t items]; [done|].
  apply andb_prop in Hall as [[_ Ht]%lineText_inv Hts].
  destruct (bullet_line t Ht) as (Hraw & H0 & H1 & Hr).
  cbn [blockLines map app]. rewrite step_bullet; rewrite Hraw; [|done..].
  rewrite Hr, pushListItem_new by done.
  change [listItemNode t] with (map listItemNode [t]).
  by rewrite read_bullet_items.
Qed.

Lemma numbered_line k t :
  lastIsInk t = true ->
  let raw := numToString k ++ lit ". " ++ t in
  trimEnd raw = raw
  /\ startsWith (lit "#") raw = false
  /\ startsWith (lit "- ") raw || startsWith (lit "* ") raw = false
  /\ testRe reOrderedWs raw = true
  /\ replaceRe reOrderedWs raw = t.
Proof.
  intros Ht raw. destruct (ordered_line k t) as (H0 & H1 & Hr).
  fold raw in H0, H1, Hr. unfold testRe, replaceRe. rewrite Hr.
  repeat split; try done.
  apply trimEnd_ink. subst raw. by do 2 apply lastIsInk_app.
Qed.

Lemma read_ordered_items items :
  forall (num : nat -> nat) done B rest,
    forallb lineText items = true ->
    parseLines
      (imap (fun i t => numToString (num i) ++ lit ". " ++ t) items ++ rest)
      (mkParseState
         (B ++ [typed "orderedList" (Some (map listItemNode done))])
         (Some (length B)))
    = parseLines rest
        (mkParseState
           (B ++ [typed "orderedList"
                    (Some (map listItemNode (done ++ items)))])
           (Some (length B))).
Proof.
  induction items as [|t items IH]; intros num done B rest.
  - intros _. simpl. by rewrite app_nil_r.
  - intros [[_ Ht]%lineText_inv Hts]%andb_prop.
    destruct (numbered_line (num 0) t Ht) as (Hraw & H0 & H1 & H2 & Hr).
    rewrite imap_cons. cbn [app].
    rewrite step_ordered; rewrite Hraw; [|done..].
    rewrite Hr, pushListItem_current.
    change [listItemNode t] with (map listItemNode [t]).
    rewrite <- map_app.
    rewrite (IH (num ∘ S)) by done. by rewrite <- app_assoc.
Qed.

Lemma read_ordered st items rest :
  needsNewList "orderedList" st = true ->
  listTexts items = true ->
  parseLines (blockLines (OrderedList items) ++ rest) st
  = parseLines rest
      (mkParseState (blocks st ++ [encode (OrderedList items)])
                    (Some (length (blocks st)))).
Proof.
  intros Hnew [Hne Hall]%andb_prop.
  destruct items as [|t items]; [done|].
  apply andb_prop in Hall as [[_ Ht]%lineText_inv Hts].
  destruct (numbered_line (0 + 1) t Ht) as (Hraw & H0 & H1 & H2 & Hr).
  cbn [blockLines]. rewrite imap_cons. cbn [app].
  rewrite step_ordered; rewrite Hraw; [|done..].
  rewrite Hr, pushListItem_new by done.
  change [listItemNode t] with (map listItemNode [t]).
  by rewrite (read_ordered_items items (fun i => S i + 1)).
Qed.
End ReadBack.

Section Blocks.
Implicit Types (b : Block) (bs : list Block) (st : ParseState)
  (o : option ListKind).

Lemma codeText_trim t : codeText t = true -> trim (t ++ [nl]) = t.
Proof.
  intros [H _]%andb_prop. destruct t as [|c t].
  - by apply trim_ws.
  - simpl in H. apply andb_prop in H as [Hf Hl]. by apply trim_block.
Qed.

Lemma read_block o b st :
  scanInv o st -> scannable o [b] = true ->
  exists st',
    (forall rest,
        parseLines (blockLines b ++ rest) st = parseLines rest st')
    /\ blocks st' = blocks st ++ [encode b]
    /\ scanInv (nextOpen o b) st'.
Proof.
  intros Hinv Hok. destruct b as [lvl t|t|items|items|t|t|];
    cbn [scannable] in Hok; rewrite ?andb_true_r in Hok.
  - (* heading *)
    apply andb_prop in Hok as [Hlvl [_ Ht]%lineText_inv].
    destruct lvl as [|n]; [done|].
    destruct (heading_line n t) as (H0 & Hrun & Hre).
    exists (pushBlock (headingNode (S n) t) st).
    split; [|split; [done|by apply scanInv_pushBlock]].
    intros rest. cbn [blockLines app].
    rewrite step_heading; rewrite trimEnd_ink;
      try by do 2 apply lastIsInk_app.
    + unfold replaceRe. by rewrite Hrun, Hre.
    + done.
  - (* paragraph *)
    apply plainText_inv in Hok
      as ([_ Ht]%lineText_inv & Hp & H1 & H2 & H3).
    exists (pushBlock (paragraphNode t) (resetList st)).
    split; [|by split]. intros rest. cbn [blockLines app].
    rewrite step_paragraph; rewrite trimEnd_ink; done.
  - (* bullet list *)
    apply andb_prop in Hok as [Hk%negb_true_iff Hitems].
    eexists. split; [|split].
    + intros rest. apply read_bullets; [|done].
      by apply (needsNewList_open o Bullet).
    + done.
    + apply (scanInv_list Bullet).
  - (* ordered list *)
    apply andb_prop in Hok as [Hk%negb_true_iff Hitems].
    eexists. split; [|split].
    + intros rest. apply read_ordered; [|done].
      by apply (needsNewList_open o Ordered).
    + done.
    + apply (scanInv_list Ordered).
  - (* code block *)
    pose proof (codeText_trim t Hok) as Htrim.
    apply andb_prop in Hok as [_ Hfree].
    exists (pushBlock (codeBlockNode t) (resetList st)).
    split; [|by split]. intros rest. cbn [blockLines app].
    rewrite <- app_assoc. cbn [app].
    rewrite step_fence; [|by apply (pastLists_head 96)|done..].
    rewrite codeRegion_lines by done. cbn [fst snd app].
    rewrite gathered_lines by apply split_nonempty.
    by rewrite join_split, Htrim.
  - (* blockquote *)
    apply lineText_inv in Hok as [_ Ht].
    exists (pushBlock (blockquoteNode t) (resetList st)).
    split; [|by split]. intros rest. cbn [blockLines app].
    assert (trimEnd (lit "> " ++ t) = lit "> " ++ t) as Hraw
        by by apply trimEnd_ink, lastIsInk_app.
    rewrite step_quote; rewrite Hraw; [done| |done].
    by apply (pastLists_head 62).
  - (* divider *)
    exists (pushBlock horizontalRuleNode (resetList st)).
    split; [|by split]. intros rest. cbn [blockLines app].
    rewrite step_rule; [done| |reflexivity..].
    repeat split; reflexivity.
Qed.

Lemma serializeNode_lines o b :
  scannable o [b] = true ->
  serializeNode (encode b) = join [nl] (blockLines b) ++ [nl; nl].
Proof.
  intros Hok. destruct b as [lvl t|t|items|items|t|t|];
    cbn [scannable] in Hok; rewrite ?andb_true_r in Hok.
  - apply andb_prop in Hok as [Hlvl _]. destruct lvl as [|n]; [done|].
    cbn [encode blockLines join]. unfold serializeNode.
    change (isType "heading" (headingNode (S n) t)) with true. cbv iota.
    change (orEmpty _) with (t ++ []). cbn [level headingNode].
    by rewrite app_nil_r, <- !app_assoc.
  - apply plainText_inv in Hok as ([_ Ht%truthy_ink]%lineText_inv & _).
    cbn [encode blockLines join]. unfold serializeNode.
    change (isType "heading" (paragraphNode t)) with false.
    change (isType "paragraph" (paragraphNode t)) with true. cbv iota.
    change (orEmpty _) with (t ++ []). rewrite app_nil_r. by rewrite Ht.
  - cbn [encode blockLines]. unfold serializeNode.
    change (isType "heading" (typed "bulletList" ?k)) with false.
    change (isType "paragraph" (typed "bulletList" ?k)) with false.
    change (isType "bulletList" (typed "bulletList" ?k)) with true.
    cbv iota. cbn [content typed fmap option_fmap option_map orEmpty default].
    do 2 f_equal. rewrite map_map. done.
  - cbn [encode blockLines]. unfold serializeNode.
    change (isType "heading" (typed "orderedList" ?k)) with false.
    change (isType "paragraph" (typed "orderedList" ?k)) with false.
    change (isType "bulletList" (typed "orderedList" ?k)) with false.
    change (isType "orderedList" (typed "orderedList" ?k)) with true.
    cbv iota. cbn [content typed fmap option_fmap option_map orEmpty default].
    do 2 f_equal. change (map listItemNode items) with (listItemNode <$> items).
    rewrite imap_fmap. done.
  - cbn [encode blockLines]. unfold serializeNode.
    change (isType "heading" (codeBlockNode t)) with false.
    change (isType "paragraph" (codeBlockNode t)) with false.
    change (isType "bulletList" (codeBlockNode t)) with false.
    change (isType "orderedList" (codeBlockNode t)) with false.
    change (isType "codeBlock" (codeBlockNode t)) with true. cbv iota.
    change (firstText (codeBlockNode t)) with t.
    rewrite join_cons by (by destruct (split t)).
    rewrite join_app by (done || apply split_nonempty).
    rewrite join_split. cbn [join]. by rewrite <- !app_assoc.
  - cbn [encode blockLines join]. unfold serializeNode.
    change (isType "heading" (blockquoteNode t)) with false.
    change (isType "paragraph" (blockquoteNode t)) with false.
    change (isType "bulletList" (blockquoteNode t)) with false.
    change (isType "orderedList" (blockquoteNode t)) with false.
    change (isType "codeBlock" (blockquoteNode t)) with false.
    change (isType "blockquote" (blockquoteNode t)) with true. cbv iota.
    change (firstText2 (blockquoteNode t)) with t.
    by rewrite <- !app_assoc.
  - reflexivity.
Qed.
End Blocks.

(** ** Reading a document back *)

Section Documents.
Implicit Types (b : Block) (bs : list Block) (st : ParseState)
  (o : option ListKind) (ls : list jsstring).

Lemma scannable_cons o b bs :
  scannable o (b :: bs) = true ->
  scannable o [b] = true /\ scannable (nextOpen o b) bs = true.
Proof.
  destruct b; cbn [scannable nextOpen]; rewrite ?andb_true_r;
    rewrite ?andb_true_iff; tauto.
Qed.

Lemma read_doc bs :
  forall o st,
    scanInv o st -> scannable o bs = true ->
    blocks (parseLines (docLines bs) st) = blocks st ++ map encode bs.
Proof.
  induction bs as [|b bs IH]; intros o st Hinv Hok.
  - simpl. by rewrite app_nil_r.
  - apply scannable_cons in Hok as [Hb Hbs].
    destruct (read_block o b st Hinv Hb) as (st' & Hread & Hblocks & Hinv').
    cbn [docLines]. rewrite Hread. destruct bs as [|b' bs].
    + simpl. by rewrite Hblocks.
    + rewrite step_blank by done.
      rewrite (IH _ _ Hinv' Hbs), Hblocks. by rewrite <- app_assoc.
Qed.

Lemma blockLines_nonempty b o :
  scannable o [b] = true -> blockLines b <> [].
Proof.
  destruct b as [| |items|items| | |]; try done;
    cbn [scannable]; rewrite ?andb_true_r;
    intros [_ [Hne _]%andb_prop]%andb_prop; by destruct items.
Qed.

Lemma docLines_nonempty bs o :
  bs <> [] -> scannable o bs = true -> docLines bs <> [].
Proof.
  destruct bs as [|b bs]; [done|]. intros _ [Hb _]%scannable_cons.
  cbn [docLines]. apply blockLines_nonempty in Hb.
  by destruct (blockLines b).
Qed.

Lemma serialize_doc bs :
  forall o,
    bs <> [] -> scannable o bs = true ->
    concat (map serializeNode (map encode bs))
    = join [nl] (docLines bs) ++ [nl; nl].
Proof.
  induction bs as [|b bs IH]; intros o Hne Hok; [done|].
  apply scannable_cons in Hok as [Hb Hbs].
  cbn [map concat docLines]. rewrite (serializeNode_lines o) by done.
  destruct bs as [|b' bs].
  - simpl. by rewrite !app_nil_r.
  - rewrite (IH (nextOpen o b)) by done.
    rewrite join_app by (done || by apply (blockLines_nonempty b o)).
    rewrite join_cons by by apply (docLines_nonempty _ (nextOpen o b)).
    by rewrite <- !app_assoc.
Qed.

(** *** The shape of the serialized lines *)

Lemma digit_not_nl ds :
  forallb isDigit ds = true -> singleLine ds = true.
Proof.
  induction ds as [|d ds IH]; [done|]. simpl.
  intros [Hd Hds]%andb_prop. rewrite IH by done.
  rewrite (N.eqb_sym d), (digit_not _ d Hd) by done. done.
Qed.

Lemma numToString_single k : singleLine (numToString k) = true.
Proof. apply digit_not_nl, uintCodes_digits. Qed.

Lemma numbered_lines (P : jsstring -> bool) items :
  (forall k t, In t items -> P (numToString k ++ lit ". " ++ t) = true) ->
  forall num : nat -> nat,
    forallb P (imap (fun i t => numToString (num i) ++ lit ". " ++ t) items)
    = true.
Proof.
  induction items as [|t items IH]; intros HP num; [done|].
  rewrite imap_cons. cbn [forallb]. rewrite HP by by left.
  apply (IH (fun k t' Ht' => HP k t' (or_intror Ht')) (num ∘ S)).
Qed.

Lemma lineText_forall items t :
  forallb lineText items = true -> In t items ->
  singleLine t = true /\ lastIsInk t = true.
Proof.
  intros H Ht. apply lineText_inv.
  by apply (proj1 (forallb_forall _ _) H).
Qed.

Lemma blockLines_single b o :
  scannable o [b] = true -> forallb singleLine (blockLines b) = true.
Proof.
  destruct b as [lvl t|t|items|items|t|t|];
    cbn [scannable blockLines]; rewrite ?andb_true_r; intros Hok.
  - apply andb_prop in Hok as [_ [Ht _]%lineText_inv].
    cbn [forallb]. rewrite !singleLine_app, Ht, repeatStr_hash.
    unfold singleLine at 1. by rewrite forallb_replicate.
  - apply plainText_inv in Hok as ([Ht _]%lineText_inv & _).
    cbn [forallb]. by rewrite Ht.
  - apply andb_prop in Hok as [_ [_ H]%andb_prop].
    apply forallb_forall. intros l (t & <- & Ht)%in_map_iff.
    rewrite singleLine_app. by destruct (lineText_forall _ _ H Ht) as [-> _].
  - apply andb_prop in Hok as [_ [_ H]%andb_prop].
    apply (numbered_lines singleLine items).
    intros k t Ht. destruct (lineText_forall _ _ H Ht) as [Hs _].
    by rewrite !singleLine_app, numToString_single, Hs.
  - cbn [forallb]. rewrite forallb_app, split_lines_single. done.
  - apply lineText_inv in Hok as [Ht _]. cbn [forallb].
    by rewrite singleLine_app, Ht.
  - done.
Qed.

Lemma docLines_single bs :
  forall o, scannable o bs = true -> forallb singleLine (docLines bs) = true.
Proof.
  induction bs as [|b bs IH]; intros o Hok; [done|].
  apply scannable_cons in Hok as [Hb Hbs]. cbn [docLines].
  rewrite forallb_app, (blockLines_single b o) by done.
  destruct bs; [done|]. cbn [forallb andb singleLine]. by apply (IH _ Hbs).
Qed.

Lemma firstLineInk_join ls :
  firstLineInk ls = true -> firstIsInk (join [nl] ls) = true.
Proof.
  destruct ls as [|l ls]; [done|]. cbn [firstLineInk]. intros Hl.
  destruct ls; [done|]. rewrite join_cons by done.
  by apply firstIsInk_app.
Qed.

Lemma lastLineInk_snoc ls l : lastLineInk (ls ++ [l]) = lastIsInk l.
Proof. unfold lastLineInk. by rewrite rev_app_distr. Qed.

Lemma lastLineInk_join ls :
  lastLineInk ls = true -> lastIsInk (join [nl] ls) = true.
Proof.
  destruct ls as [|l ls _] using rev_ind; [done|].
  rewrite lastLineInk_snoc. intros Hl. destruct ls as [|l' ls]; [done|].
  rewrite join_app by done. by do 2 apply lastIsInk_app.
Qed.

Lemma lastLineInk_app ls ls' :
  ls' <> [] -> lastLineInk (ls ++ ls') = lastLineInk ls'.
Proof.
  intros Hne. destruct ls' as [|l ls' _] using rev_ind; [done|].
  by rewrite app_assoc, !lastLineInk_snoc.
Qed.

Lemma lastLineInk_all ls :
  ls <> [] -> forallb lastIsInk ls = true -> lastLineInk ls = true.
Proof.
  destruct ls as [|l ls _] using rev_ind; [done|]. intros _.
  rewrite forallb_app. intros [_ [H _]%andb_prop]%andb_prop.
  by rewrite lastLineInk_snoc.
Qed.

Lemma blockLines_last b o :
  scannable o [b] = true -> lastLineInk (blockLines b) = true.
Proof.
  intros Hok. pose proof (blockLines_nonempty b o Hok) as Hne.
  destruct b as [lvl t|t|items|items|t|t|];
    cbn [scannable blockLines] in *; rewrite ?andb_true_r in Hok.
  - apply andb_prop in Hok as [_ [_ Ht]%lineText_inv].
    unfold lastLineInk. cbn [rev app]. by do 2 apply lastIsInk_app.
  - by apply plainText_inv in Hok as ([_ Ht]%lineText_inv & _).
  - apply andb_prop in Hok as [_ [_ H]%andb_prop].
    apply lastLineInk_all; [done|].
    apply forallb_forall. intros l (t & <- & Ht)%in_map_iff.
    destruct (lineText_forall _ _ H Ht) as [_ Hl].
    by apply lastIsInk_app.
  - apply andb_prop in Hok as [_ [_ H]%andb_prop].
    apply lastLineInk_all; [done|].
    apply (numbered_lines lastIsInk items).
    intros k t Ht. destruct (lineText_forall _ _ H Ht) as [_ Hl].
    by do 2 apply lastIsInk_app.
  - change (lit "```" :: split t ++ [lit "```"])
      with ((lit "```" :: split t) ++ [lit "```"]).
    by rewrite lastLineInk_app.
  - apply lineText_inv in Hok as [_ Ht].
    unfold lastLineInk. cbn [rev app]. by apply lastIsInk_app.
  - done.
Qed.

Lemma docLines_last bs :
  forall o,
    bs <> [] -> scannable o bs = true -> lastLineInk (docLines bs) = true.
Proof.
  induction bs as [|b bs IH]; intros o Hne Hok; [done|].
  apply scannable_cons in Hok as [Hb Hbs]. cbn [docLines].
  destruct bs as [|b' bs].
  - rewrite app_nil_r. by apply (blockLines_last b o).
  - rewrite lastLineInk_app by done.
    change ([] :: ?x) with ([[]] ++ x).
    rewrite lastLineInk_app by by apply (docLines_nonempty _ (nextOpen o b)).
    by apply (IH (nextOpen o b)).
Qed.

Lemma docLines_first bs o :
  bs <> [] -> scannable o bs = true -> firstBlockOk bs = true ->
  firstLineInk (docLines bs) = true.
Proof.
  destruct bs as [|b bs]; [done|]. intros _ [Hb _]%scannable_cons Hfirst.
  pose proof (blockLines_nonempty b o Hb) as Hne. cbn [docLines].
  destruct (blockLines b) as [|l ls] eqn:E; [done|]. cbn [app firstLineInk].
  destruct b as [lvl t|t|items|items|t|t|];
    cbn [scannable blockLines firstBlockOk] in *;
    rewrite ?andb_true_r in Hb.
  - apply andb_prop in Hb as [Hlvl _]. destruct lvl; [done|].
    by injection E as <- _.
  - by injection E as <- _.
  - destruct items; [done|]. by injection E as <- _.
  - destruct items as [|t items]; [done|]. rewrite imap_cons in E.
    by injection E as <- _.
  - by injection E as <- _.
  - by injection E as <- _.
  - by injection E as <- _.
Qed.
End Documents.

(** ** The converter: round trip *)

(** C1, as stated, fails: a paragraph whose text begins with a hash and a
    space is in the supported subset, is written as the line [# Title], and
    that line is read back as a level-1 heading, so the kind of the block is
    not preserved. *)
Lemma roundtrip_fails_on_hash_paragraph :
  let bs := [Paragraph (lit "# Title")] in
  inSupportedSubset bs = true
  /\ parseMarkdownToJSON (serializeToMarkdown (encodeDoc bs))
     = encodeDoc [Heading 1 (lit "Title")]
  /\ parseMarkdownToJSON (serializeToMarkdown (encodeDoc bs)) <> encodeDoc bs.
Proof.
  split; [reflexivity|]. split; [vm_compute; reflexivity|].
  vm_compute. discriminate.
Qed.

(** C1, amended: [parse (serialize blocks) = blocks] for every sequence of
    headings (level at least 1), paragraphs, bullet lists, ordered lists, code
    blocks, blockquotes and dividers that is [roundTrippable]: every heading,
    list-item and quote text is a non-empty single line without trailing
    white space; a paragraph text is such a line that the scan does not read
    as a heading, list item, quote, fence or divider, and does not begin with
    white space when it is the first block; every list has an item; a code
    text is trimmed and has no line starting with a fence; and no list follows
    a list of the same kind with nothing but headings between them. *)
Theorem roundtrip_supported_subset (bs : list Block) :
  roundTrippable bs = true ->
  parseMarkdownToJSON (serializeToMarkdown (encodeDoc bs)) = encodeDoc bs.
Proof.
  intros [Hscan Hfirst]%andb_prop.
  destruct (decide (bs = [])) as [->|Hne]; [reflexivity|].
  unfold parseMarkdownToJSON, serializeToMarkdown, encodeDoc.
  cbn [content docNode typed]. f_equal.
  rewrite (serialize_doc bs None) by done.
  rewrite trim_block; [| |by apply lastLineInk_join, (docLines_last bs None)|done].
  - rewrite split_join;
      [|by apply (docLines_nonempty bs None)|by apply (docLines_single bs None)].
    by rewrite (read_doc bs None).
  - by apply firstLineInk_join, (docLines_first bs None).
Qed.

Lemma roundtrip_supported_subset_witness :
  let bs := [Heading 2 (lit "Plan"); Paragraph (lit "hello world");
             BulletList [lit "a"; lit "b"]; Heading 1 (lit "#y");
             OrderedList [lit "1. x"; lit " y"]; BulletList [lit "q"];
             CodeBlock (unlines [lit "let x"; []; lit "  y"]);
             Blockquote (lit "quoted"); Divider; CodeBlock [];
             Paragraph (lit " indented")] in
  roundTrippable bs = true
  /\ parseMarkdownToJSON (serializeToMarkdown (encodeDoc bs)) = encodeDoc bs.
Proof.
  split; [reflexivity|].
  apply roundtrip_supported_subset. reflexivity.
Defined.

(** Each side condition of [roundTrippable] excludes sequences that are not
    read back as written. *)
Example roundtrip_boundaries :
  let back bs := parseMarkdownToJSON (serializeToMarkdown (encodeDoc bs)) in
  back [Heading 1 []] = encodeDoc [Heading 1 (lit "#")]
  /\ back [Heading 0 (lit "t")] = encodeDoc [Heading 1 (lit "t")]
  /\ back [Paragraph []] = encodeDoc []
  /\ back [Paragraph (lit " t")] = encodeDoc [Paragraph (lit "t")]
  /\ back [Paragraph (lit "t ")] = encodeDoc [Paragraph (lit "t")]
  /\ back [Paragraph (lit "- t")] = encodeDoc [BulletList [lit "t"]]
  /\ back [Paragraph (lit "---")] = encodeDoc [Divider]
  /\ back [BulletList []] = encodeDoc []
  /\ back [BulletList [[]]] = encodeDoc [Paragraph (lit "-")]
  /\ back [CodeBlock (lit " t")] = encodeDoc [CodeBlock (lit "t")]
  /\ back [CodeBlock (unlines [lit "a"; lit "```"; lit "b"])]
     = encodeDoc [CodeBlock (lit "a"); Paragraph (lit "b"); CodeBlock []]
  /\ back [Paragraph (unlines [lit "a"; lit "b"])]
     = encodeDoc [Paragraph (lit "a"); Paragraph (lit "b")]
  /\ back [BulletList [lit "a"]; BulletList [lit "b"]]
     = encodeDoc [BulletList [lit "a"; lit "b"]].
Proof. repeat split; vm_compute; reflexivity. Qed.

(** C9, as stated, fails: [serializeToMarkdown] trims the joined output, so
    the one-heading document is written without the trailing blank line. *)
Lemma serialized_heading_is_trimmed :
  serializeToMarkdown (encodeDoc [Heading 3 (lit "Hello")])
  <> lit "### Hello" ++ [nl; nl].
Proof. vm_compute. discriminate. Qed.

(** C9, amended: the line [### Hello] parses to a level-3 heading with text
    [Hello]; the heading rule writes that block as [### Hello] followed by a
    blank line, and [serializeToMarkdown], which trims the joined output,
    returns exactly [### Hello] for the one-block document. *)
Theorem heading_example :
  parseMarkdownToJSON (lit "### Hello") = encodeDoc [Heading 3 (lit "Hello")]
  /\ serializeNode (encode (Heading 3 (lit "Hello")))
     = lit "### Hello" ++ [nl; nl]
  /\ serializeToMarkdown (encodeDoc [Heading 3 (lit "Hello")])
     = lit "### Hello".
Proof. repeat split; vm_compute; reflexivity. Qed.

(** C10: a line whose run of hashes is not followed by white space is read as
    a heading whose level is the length of the run and whose text is the whole
    line, hashes included.  [line] is the line as the scan classifies it, that
    is without trailing white space; the statement holds at any position of
    any document, and in particular for a one-line document. *)
Theorem heading_without_space (raw line tail : jsstring) (n : nat) :
  trimEnd raw = line ->
  line = repeatStr (lit "#") (S n) ++ tail ->
  match tail with
  | [] => True
  | c :: _ => c <> 35%N /\ isWhiteSpace c = false
  end ->
  (forall rest st,
      parseLines (raw :: rest) st
      = parseLines rest (pushBlock (headingNode (S n) line) st))
  /\ (singleLine raw = true ->
      parseMarkdownToJSON raw = encodeDoc [Heading (S n) line]).
Proof.
  intros Hraw Hline Htail.
  assert (Hstep : forall rest st,
             parseLines (raw :: rest) st
             = parseLines rest (pushBlock (headingNode (S n) line) st)).
  { intros rest st. rewrite step_heading; rewrite Hraw, Hline.
    - rewrite repeatStr_hash. unfold hashRun, replaceRe, reHashesWs.
      rewrite takeWhile_app, dropWhile_app by by apply forallb_replicate.
      destruct tail as [|c tail].
      + cbn [takeWhile dropWhile]. by rewrite !app_nil_r, length_replicate.
      + destruct Htail as [Hc Hw]. cbn [takeWhile dropWhile].
        apply N.eqb_neq in Hc. rewrite (N.eqb_sym 35), Hc, Hw.
        by rewrite app_nil_r, length_replicate.
    - by rewrite repeatStr_hash. }
  split; [done|]. intros Hsingle. unfold parseMarkdownToJSON.
  by rewrite split_singleLine, Hstep.
Qed.

Lemma heading_without_space_witness :
  parseMarkdownToJSON (lit "##x") = encodeDoc [Heading 2 (lit "##x")].
Proof.
  apply (heading_without_space (lit "##x") (lit "##x") (lit "x") 1);
    [reflexivity|reflexivity|by split|reflexivity].
Defined.

(** *** Blank lines and the current list *)

Lemma step_item (k : ListKind) (raw : jsstring) (rest : list jsstring)
    (st : ParseState) :
  isItemLine k raw = true ->
  parseLines (raw :: rest) st
  = parseLines rest (pushListItem (typeName k) (itemText k raw) st).
Proof.
  unfold isItemLine, itemText. destruct k; intros H.
  - apply step_bullet; [|done].
    destruct (trimEnd raw) as [|c line]; [done|]. revert H. lits.
    cbn [startsWith]. destruct (N.eqb_spec 35 c) as [<-|]; [|done].
    by destruct line.
  - assert (exists d line, trimEnd raw = d :: line /\ isDigit d = true)
      as (d & line & Hraw & Hd).
    { unfold testRe, reOrderedWs in H. apply bool_decide_eq_true in H.
      destruct (trimEnd raw) as [|d line]; [by destruct H|].
      exists d, line. split; [done|]. cbn [takeWhile] in H.
      destruct (isDigit d); [done|]. by destruct H. }
    apply step_ordered; [| |done]; rewrite Hraw; lits; cbn [startsWith];
      by rewrite !(digit_not _ d Hd).
Qed.

Lemma step_blanks (blanks rest : list jsstring) (st : ParseState) :
  forallb isBlankLine blanks = true ->
  parseLines (blanks ++ rest) st = parseLines rest st.
Proof.
  induction blanks as [|l blanks IH]; [done|].
  intros [Hl Hb]%andb_prop. cbn [app].
  rewrite step_blank by by apply negb_true_iff. by apply IH.
Qed.

Lemma type_pushChild (item node : JSONContent) :
  type (pushChild item node) = type node.
Proof. unfold pushChild. by destruct (content node). Qed.

Lemma pushListItem_current_list (ty : string) (t : jsstring) (st : ParseState) :
  exists i,
    currentList (pushListItem ty t st) = Some i
    /\ needsNewList ty (pushListItem ty t st) = false.
Proof.
  unfold pushListItem. destruct (needsNewList ty st) eqn:E.
  - exists (length (blocks st)). split; [done|]. cbn [currentList blocks].
    unfold needsNewList. cbn [currentList blocks].
    rewrite list_lookup_alter_eq, list_lookup_middle by done.
    cbn [fmap option_fmap option_map]. unfold isType.
    rewrite type_pushChild. by rewrite bool_decide_eq_true_2.
  - unfold needsNewList in E.
    destruct (currentList st) as [i|] eqn:Ei; [|done].
    destruct (blocks st !! i) as [node|] eqn:En; [|done].
    exists i. split; [done|]. unfold needsNewList.
    cbn [currentList blocks]. rewrite list_lookup_alter_eq, En.
    cbn [fmap option_fmap option_map]. unfold isType in *.
    by rewrite type_pushChild.
Qed.

(** C5, as stated, fails: at [- a], blank, [- b] the two items are in one
    bullet list, not in two; the same at [1. a], blank, [2. b]. *)
Lemma blank_line_does_not_close_list :
  parseMarkdownToJSON (unlines [lit "- a"; []; lit "- b"])
  = encodeDoc [BulletList [lit "a"; lit "b"]]
  /\ parseMarkdownToJSON (unlines [lit "- a"; []; lit "- b"])
     <> encodeDoc [BulletList [lit "a"]; BulletList [lit "b"]]
  /\ parseMarkdownToJSON (unlines [lit "1. a"; []; lit "2. b"])
     = encodeDoc [OrderedList [lit "a"; lit "b"]]
  /\ parseMarkdownToJSON (unlines [lit "1. a"; []; lit "2. b"])
     <> encodeDoc [OrderedList [lit "a"]; OrderedList [lit "b"]].
Proof.
  repeat split; try (vm_compute; reflexivity); vm_compute; discriminate.
Qed.

(** C5, amended: a blank line does not close a list.  Blank lines are skipped
    without touching the scan state, so when two item lines of the same kind
    (bullet or ordered) are separated only by blank lines, the second item is
    pushed into the list that is current after the first, the list that
    received the first item, and no new block is opened; a document made of
    just these lines parses to one list block with the two items. *)
Theorem blank_lines_keep_list_current (k : ListKind) (l1 l2 : jsstring)
    (blanks rest : list jsstring) (st : ParseState) :
  isItemLine k l1 = true -> isItemLine k l2 = true ->
  forallb isBlankLine blanks = true ->
  let st1 := pushListItem (typeName k) (itemText k l1) st in
  (exists i,
      currentList st1 = Some i
      /\ parseLines (l1 :: blanks ++ l2 :: rest) st
         = parseLines rest
             (mkParseState
                (alter (pushChild (listItemNode (itemText k l2))) i
                       (blocks st1))
                (Some i)))
  /\ blocks (parseLines (l1 :: blanks ++ [l2]) (mkParseState [] None))
     = [typed (typeName k)
          (Some [listItemNode (itemText k l1); listItemNode (itemText k l2)])].
Proof.
  intros H1 H2 Hb st1. split.
  - destruct (pushListItem_current_list (typeName k) (itemText k l1) st)
      as (i & Hi & Hcur).
    exists i. split; [done|].
    rewrite (step_item k) by done. rewrite step_blanks by done.
    rewrite (step_item k) by done. fold st1 in Hi, Hcur |- *.
    unfold pushListItem at 1. by rewrite Hcur, Hi.
  - rewrite (step_item k) by done. rewrite step_blanks by done.
    rewrite (step_item k) by done. cbn [parseLines].
    rewrite (pushListItem_new _ _ (mkParseState [] None)) by done.
    by rewrite (pushListItem_current _ _ []).
Qed.

Lemma blank_lines_keep_list_current_witness :
  blocks (parseLines (lit "- a" :: [[]; lit "  "] ++ [lit "* b"])
            (mkParseState [] None))
  = [typed "bulletList" (Some [listItemNode (lit "a"); listItemNode (lit "b")])].
Proof.
  apply (blank_lines_keep_list_current Bullet (lit "- a") (lit "* b")
           [[]; lit "  "] [] (mkParseState [] None));
    reflexivity.
Defined.

(** The reset is also missed by a heading: the item after the heading is
    pushed into the list before it. *)
Example heading_keeps_list_current :
  parseMarkdownToJSON (unlines [lit "- a"; lit "# H"; lit "- b"])
  = encodeDoc [BulletList [lit "a"; lit "b"]; Heading 1 (lit "H")].
Proof. vm_compute. reflexivity. Qed.

Example parse_example2 :
  parseMarkdownToJSON (unlines [lit "- a"; lit "- b"; []; lit "text"])
  = encodeDoc [BulletList [lit "a"; lit "b"]; Paragraph (lit "text")].
Proof. vm_compute. reflexivity. Qed.

(** ** The converter: marks *)

Lemma applyMark_delimiters (t m : jsstring) :
  applyMark t m = markDelimiter m ++ t ++ markDelimiter m.
Proof.
  unfold applyMark, markDelimiter, streq.
  repeat case_bool_decide; simplify_eq; try done.
  by rewrite app_nil_r.
Qed.

Lemma nestMarks_snoc (ms : list jsstring) (m t : jsstring) :
  nestMarks (ms ++ [m]) t = nestMarks ms (applyMark t m).
Proof.
  induction ms as [|m' ms IH]; simpl.
  - by rewrite applyMark_delimiters.
  - by rewrite IH.
Qed.

(** C6, as stated, fails: with the marks stored as code, bold the run is
    wrapped in backticks first and in asterisks second, while bold, italic,
    code order puts the asterisks inside the backticks. *)
Lemma marks_follow_stored_order :
  let ms := [lit "code"; lit "bold"] in
  serializeRun (textRun (lit "x") ms) = lit "**`x`**"
  /\ wrapFixedOrder ms (lit "x") = lit "`**x**`"
  /\ serializeToMarkdown
       (docNode [typed "paragraph" (Some [textRun (lit "x") ms])])
     <> wrapFixedOrder ms (lit "x").
Proof.
  split; [vm_compute; reflexivity|]. split; [vm_compute; reflexivity|].
  vm_compute. discriminate.
Qed.

(** C6, amended: serialize wraps the text of a run once for each mark of its
    mark list, in the stored order of the list, the first stored mark
    innermost and the last outermost (bold [**], italic [*], code [`], any
    other mark nothing); when the marks are stored in the order bold, italic,
    code the result is the bold, then italic, then code wrapping. *)
Theorem marks_wrap_in_stored_order (t : jsstring) (ms : list jsstring) :
  serializeRun (textRun t ms) = nestMarks (rev ms) t
  /\ forall b i c : bool,
      let stored := (if b then [lit "bold"] else [])
                    ++ (if i then [lit "italic"] else [])
                    ++ (if c then [lit "code"] else []) in
      serializeRun (textRun t stored) = wrapFixedOrder stored t.
Proof.
  split.
  - change (serializeRun (textRun t ms)) with (foldl applyMark t ms).
    revert t. induction ms as [|m ms IH]; intros t; [done|].
    cbn [foldl rev]. by rewrite nestMarks_snoc, IH.
  - by intros [] [] [].
Qed.

(** ** Section extraction *)

Lemma map_filter_ext {A B} (f g : A -> B) (p : A -> bool) (l : list A) :
  (forall x, p x = true -> f x = g x) ->
  map f (List.filter p l) = map g (List.filter p l).
Proof.
  intros H. induction l as [|x l IH]; [done|]. simpl.
  destruct (p x) eqn:E; [|done]. simpl. by rewrite IH, H.
Qed.

Lemma startsWith_section (l : jsstring) :
  startsWith (lit "# ") l = isSectionLine l.
Proof.
  destruct l as [|a [|b l]]; lits; cbn [startsWith isSectionLine].
  - done.
  - by rewrite andb_false_r.
  - by rewrite andb_true_r, (N.eqb_sym 35), (N.eqb_sym 32).
Qed.

Lemma section_line_title (l : jsstring) :
  isSectionLine l = true -> replaceRe reHashWs l = drop 2 l.
Proof.
  destruct l as [|a [|b l]]; cbn [isSectionLine]; try done.
  intros [->%N.eqb_eq ->%N.eqb_eq]%andb_prop. reflexivity.
Qed.

Lemma deeper_heading_not_section (l : jsstring) :
  2 <= hashRun l -> isSectionLine l = false.
Proof.
  unfold hashRun. destruct l as [|a [|b l]]; cbn [isSectionLine]; [done..|].
  cbn [takeWhile]. destruct (N.eqb_spec 35 a) as [<-|]; [|simpl; lia].
  destruct (N.eqb_spec 35 b) as [<-|]; [done|simpl; lia].
Qed.

(** C7: [extractSections] returns, in document order and with repetitions
    kept, the trimmed remainder after the two-unit prefix of every line that
    begins with one hash and a space; a line with a run of two or more hashes
    is not such a line; and the example of the specification evaluates to
    [Problem], [Solution]. *)
Theorem extract_sections_spec (markdown : jsstring) :
  extractSections markdown
  = map (fun l => trim (drop 2 l)) (List.filter isSectionLine (split markdown))
  /\ (forall l, 2 <= hashRun l -> isSectionLine l = false)
  /\ extractSections
       (unlines [lit "# Problem"; []; lit "content"; []; lit "# Solution"; []])
     = [lit "Problem"; lit "Solution"]
  /\ extractSections (unlines [lit "# A"; lit "## B"; lit "# A"])
     = [lit "A"; lit "A"].
Proof.
  split; [|split; [apply deeper_heading_not_section|]].
  - unfold extractSections.
    rewrite (filter_ext _ _ startsWith_section).
    apply map_filter_ext. intros l Hl. by rewrite section_line_title.
  - split; vm_compute; reflexivity.
Qed.

(** ** Section reconciliation *)

Lemma findSection_Some (header : jsstring) (prev : list SectionMeta)
    (e : SectionMeta) :
  findSection header prev = Some e -> id e = header /\ In e prev.
Proof.
  intros [Hin Heq]%find_some. split; [|done].
  by apply bool_decide_eq_true in Heq.
Qed.

Lemma findSection_None (header : jsstring) (prev : list SectionMeta) :
  findSection header prev = None ->
  forall e, In e prev -> id e <> header.
Proof.
  intros H e He Hid.
  pose proof (find_none _ _ H e He) as Hf. cbn beta in Hf.
  by apply bool_decide_eq_false in Hf.
Qed.

Lemma findSection_unique (prev : list SectionMeta) (e : SectionMeta) :
  NoDup (map id prev) -> In e prev -> findSection (id e) prev = Some e.
Proof.
  unfold findSection, streq.
  induction prev as [|a prev IH]; [done|]. cbn [map find].
  intros Hnd [->|Hin]; inversion Hnd as [|? ? Ha Hnd']; subst.
  - by rewrite bool_decide_eq_true_2.
  - rewrite bool_decide_eq_false_2; [by apply IH|].
    intros Heq. apply Ha. rewrite Heq. apply list_elem_of_In.
    by apply in_map.
Qed.

Lemma reconcile_lookup (previousMeta : list SectionMeta)
    (currentTitles : list jsstring) (now : N) (editedByUser : bool)
    (i : nat) (title : jsstring) :
  currentTitles !! i = Some title ->
  reconcile previousMeta currentTitles now editedByUser !! i
  = Some match findSection title previousMeta with
         | Some existing =>
             mkSectionMeta title
               (if editedByUser then now else editedAt existing)
               (locked existing)
         | None => mkSectionMeta title now false
         end.
Proof.
  intros Hi. unfold reconcile, reconcileUser, reconcileAI.
  destruct editedByUser;
    change (map ?f currentTitles) with (f <$> currentTitles);
    rewrite list_lookup_fmap, Hi; cbn [fmap option_fmap option_map];
    destruct (findSection title previousMeta) as [e|] eqn:E; try done;
    apply findSection_Some in E as [<- _]; by destruct e.
Qed.

(** C2: the reconciled list has one entry per current title, in the order of
    the titles.  The entry of a title that has a previous entry (the first one
    with that id) keeps that entry's locked flag, and its [editedAt] is [now]
    for a user edit and the previous value for an AI rewrite; the entry of a
    title with no previous entry is [{id: title, editedAt: now, locked:
    false}].  When the previous ids are distinct, every previous entry whose
    id is a current title is the one carried forward. *)
Theorem reconcile_preserves_identity (previousMeta : list SectionMeta)
    (currentTitles : list jsstring) (now : N) (editedByUser : bool) :
  let result := reconcile previousMeta currentTitles now editedByUser in
  map id result = currentTitles
  /\ (forall i title,
         currentTitles !! i = Some title ->
         match findSection title previousMeta with
         | Some existing =>
             id existing = title /\ In existing previousMeta
             /\ result !! i
                = Some (mkSectionMeta title
                          (if editedByUser then now else editedAt existing)
                          (locked existing))
         | None =>
             (forall e, In e previousMeta -> id e <> title)
             /\ result !! i = Some (mkSectionMeta title now false)
         end)
  /\ (NoDup (map id previousMeta) ->
      forall e i,
        In e previousMeta -> currentTitles !! i = Some (id e) ->
        result !! i
        = Some (mkSectionMeta (id e)
                  (if editedByUser then now else editedAt e) (locked e))).
Proof.
  intros result. subst result. split; [|split].
  - unfold reconcile, reconcileUser, reconcileAI.
    destruct editedByUser; rewrite map_map;
      rewrite <- (map_id currentTitles) at 2; apply map_ext; intros title;
      destruct (findSection title previousMeta) as [e|] eqn:E; try done;
      by apply findSection_Some in E as [-> _].
  - intros i title Hi. rewrite (reconcile_lookup _ _ _ _ i title Hi).
    destruct (findSection title previousMeta) as [e|] eqn:E.
    + by destruct (findSection_Some _ _ _ E) as [Hid Hin].
    + split; [by apply findSection_None|done].
  - intros Hnd e i He Hi. rewrite (reconcile_lookup _ _ _ _ i (id e) Hi).
    by rewrite findSection_unique.
Qed.

(** ** Lock policy *)

(** C3: a section is locked exactly when its flag is set, or its [editedAt] is
    not zero and less than two minutes (120000 ms) have passed since; a
    flagged section is locked at every time, and an unflagged section with
    [editedAt = 0] is locked at no time. *)
Theorem lock_policy (s : SectionMeta) (now : N) :
  (isLocked now s = true
   <-> locked s = true
       \/ (editedAt s <> 0%N
           /\ (Z.of_N now - Z.of_N (editedAt s) < 2 * 60 * 1000)%Z))
  /\ (locked s = true -> isLocked now s = true)
  /\ (locked s = false -> editedAt s = 0%N -> isLocked now s = false).
Proof.
  unfold isLocked, recencyWindow. split; [|split].
  - rewrite orb_true_iff, andb_true_iff, Z.ltb_lt, N.ltb_lt.
    split; (intros [H|[H1 H2]]; [by left|right]); split; lia.
  - by intros ->.
  - intros -> ->. cbn [orb]. apply andb_false_r.
Qed.

Example lock_example4 :
  let now := 1700000000000%N in
  isLocked now (mkSectionMeta (lit "Problem") (now - 60000) false) = true
  /\ isLocked now (mkSectionMeta (lit "Problem") (now - 180000) false) = false.
Proof. split; reflexivity. Qed.

(** ** Session updates *)

(** C8: a user edit whose blocks serialize to the Markdown the session already
    holds returns the session itself: neither [lastUpdated] nor any section
    changes. *)
Theorem user_edit_noop (now : N) (blocksJson : JSONContent)
    (prev : DocumentState) :
  serializeToMarkdown blocksJson = markdown prev ->
  applyUserEdit now blocksJson prev = prev.
Proof.
  intros H. unfold applyUserEdit, handleDocUpdate, streq.
  by rewrite bool_decide_eq_true_2.
Qed.

Lemma user_edit_noop_witness :
  let blocksJson := encodeDoc [Heading 1 (lit "Problem")] in
  let prev :=
    mkDocumentState (lit "# Problem") (parseMarkdownToJSON (lit "# Problem"))
      [mkSectionMeta (lit "Problem") 0 false] 1700000000000 in
  serializeToMarkdown blocksJson = markdown prev
  /\ applyUserEdit 1700000060000 blocksJson prev = prev.
Proof.
  split; [reflexivity|]. apply user_edit_noop. reflexivity.
Defined.

(** The guard is what keeps the timestamps: an edit that changes the Markdown
    stamps the session and every section with [now]. *)
Lemma user_edit_changes (now : N) (blocksJson : JSONContent)
    (prev : DocumentState) :
  serializeToMarkdown blocksJson <> markdown prev ->
  let next := applyUserEdit now blocksJson prev in
  lastUpdated next = now /\ Forall (fun s => editedAt s = now) (sections next).
Proof.
  intros H. unfold applyUserEdit, handleDocUpdate, streq.
  rewrite bool_decide_eq_false_2 by done. cbn [lastUpdated sections].
  split; [done|]. unfold reconcileUser. apply Forall_forall.
  intros s (h & <- & _)%in_map_iff. by destruct (findSection h _).
Qed.

(** C4, as stated, fails: after a document call that throws, the session is
    not what it was; its Markdown is the same, but [lastUpdated] moved to the
    time the request completed. *)
Lemma failed_rewrite_touches_session :
  let st :=
    mkDocumentState (lit "# Problem") (parseMarkdownToJSON (lit "# Problem"))
      [mkSectionMeta (lit "Problem") 0 false] 1700000000000 in
  let st' := requestRewrite 1700000060000 Threw st in
  markdown st' = markdown st
  /\ lastUpdated st' = 1700000060000%N
  /\ st' <> st.
Proof. split; [reflexivity|]. split; [reflexivity|]. vm_compute. discriminate. Qed.

(** C4, amended: when the document call throws, the error is caught inside
    [processChatAndDoc], which hands back the Markdown it was given when the
    message was sent.  [handleSendMessage] then runs its updater on the
    session as it is when the request completes.  When the send-time Markdown
    is not empty, the session's [markdown] becomes that Markdown, so it equals
    the value it had immediately before the call and an edit made while the
    request was pending is overwritten; [json] is parsed from it, [sections]
    is the AI-side reconciliation of its section titles against the
    completion-time entries, and [lastUpdated] is the completion time.  When
    it is empty, the completion-time session is returned as it is.  With no
    edit while the request is pending, the [markdown] after the failed call
    equals its value before the call in either case.

    [sent] is the session at send time, [current] the session at completion
    time; the two are independent. *)
Theorem failed_rewrite_keeps_markdown (now : N) (sent current : DocumentState) :
  let fallback := updatedDocumentMarkdown (markdown sent) Threw in
  let next := applyRewriteResult now fallback current in
  fallback = markdown sent
  /\ (markdown sent = [] -> next = current)
  /\ (markdown sent <> [] ->
      markdown next = markdown sent
      /\ json next = parseMarkdownToJSON (markdown sent)
      /\ sections next
         = reconcile (sections current) (extractSections (markdown sent))
                     now false
      /\ lastUpdated next = now)
  /\ markdown (requestRewrite now Threw sent) = markdown sent.
Proof.
  unfold requestRewrite, applyRewriteResult. cbn [updatedDocumentMarkdown].
  split; [done|]. split; [by intros ->|]. split.
  - intros Hne. destruct (markdown sent) as [|c m]; [done|].
    cbn [truthy markdown json sections lastUpdated]. by repeat split.
  - by destruct (markdown sent) as [|c m] eqn:E; cbn [truthy markdown].
Qed.

(** An edit made while the request is pending is lost when the call fails:
    the updater writes the send-time Markdown over it. *)
Example failed_rewrite_overwrites_pending_edit :
  let sent :=
    mkDocumentState (lit "# Problem") (parseMarkdownToJSON (lit "# Problem"))
      [mkSectionMeta (lit "Problem") 0 false] 1700000000000 in
  let current :=
    handleDocUpdate 1700000030000 (lit "# Problem and more")
      (parseMarkdownToJSON (lit "# Problem and more")) sent in
  let next :=
    applyRewriteResult 1700000060000
      (updatedDocumentMarkdown (markdown sent) Threw) current in
  markdown current = lit "# Problem and more"
  /\ markdown next = lit "# Problem".
Proof. split; vm_compute; reflexivity. Qed.

(** * Further properties of the converter *)

(** ** More on trimming *)

Section Trimming.
Implicit Types (s t : jsstring) (p : N -> bool).

Lemma dropWhile_head p s c r : dropWhile p s = c :: r -> p c = false.
Proof.
  induction s as [|a s IH]; simpl; [done|].
  destruct (p a) eqn:E; [done|]. by intros [= <- _].
Qed.

Lemma dropWhile_In p s c : In c (dropWhile p s) -> In c s.
Proof.
  induction s as [|a s IH]; simpl; [done|].
  destruct (p a); [|done]. intros H. right. by apply IH.
Qed.

Lemma dropWhile_keep p s c t :
  p c = false -> exists d, dropWhile p (s ++ c :: t) = d ++ c :: t.
Proof.
  intros Hc. induction s as [|a s IH]; simpl.
  - exists []. by rewrite Hc.
  - destruct (p a); [done|]. by exists (a :: s).
Qed.

Lemma takeWhile_dropWhile p s : takeWhile p s ++ dropWhile p s = s.
Proof.
  induction s as [|a s IH]; simpl; [done|].
  destruct (p a); [|done]. simpl. by rewrite IH.
Qed.

Lemma trimEnd_In s c : In c (trimEnd s) -> In c s.
Proof.
  unfold trimEnd. intros H%in_rev%dropWhile_In. by apply in_rev.
Qed.

Lemma singleLine_trimEnd s : singleLine s = true -> singleLine (trimEnd s) = true.
Proof.
  unfold singleLine. rewrite !forallb_forall.
  intros H c Hc%trimEnd_In. by apply H.
Qed.

Lemma trimEnd_last s : truthy (trimEnd s) = true -> lastIsInk (trimEnd s) = true.
Proof.
  unfold trimEnd, lastIsInk. rewrite rev_involutive.
  destruct (dropWhile isWhiteSpace (rev s)) as [|c r] eqn:E; [done|].
  intros _. simpl. by rewrite (dropWhile_head _ _ _ _ E).
Qed.

Lemma trimEnd_keeps_prefix s t :
  lastIsInk s = true -> exists y, trimEnd (s ++ t) = s ++ y.
Proof.
  intros (s' & c & -> & Hc)%lastIsInk_inv. unfold trimEnd.
  rewrite !rev_app_distr. change (rev [c]) with [c]. cbn [app].
  destruct (dropWhile_keep isWhiteSpace (rev t) c (rev s') Hc) as [d Hd].
  rewrite Hd. exists (rev d). rewrite rev_app_distr. simpl.
  by rewrite rev_involutive.
Qed.

(** A trimmed text is empty, or begins and ends in ink. *)
Lemma trim_shape s :
  trim s = [] \/ (firstIsInk (trim s) = true /\ lastIsInk (trim s) = true).
Proof.
  unfold trim, trimStart.
  destruct (dropWhile isWhiteSpace s) as [|c y] eqn:E; [by left|].
  pose proof (dropWhile_head _ _ _ _ E) as Hc. right.
  destruct (trimEnd_keeps_prefix [c] y) as [z Hz].
  { unfold lastIsInk. simpl. by rewrite Hc. }
  cbn [app] in Hz. split.
  - rewrite Hz. simpl. by rewrite Hc.
  - apply trimEnd_last. by rewrite Hz.
Qed.

Lemma trim_idem s : trim (trim s) = trim s.
Proof.
  destruct (trim_shape s) as [->|[Hf Hl]]; [done|].
  rewrite <- (app_nil_r (trim s)) at 1. by apply trim_block.
Qed.

Lemma trimStart_app_ink s t :
  existsb (fun c => negb (isWhiteSpace c)) s = true ->
  trimStart (s ++ t) = trimStart s ++ t.
Proof.
  unfold trimStart. induction s as [|c s IH]; simpl; [done|].
  destruct (isWhiteSpace c); simpl; [apply IH|done].
Qed.

Lemma all_ws_or_ink s :
  forallb isWhiteSpace s = true
  \/ existsb (fun c => negb (isWhiteSpace c)) s = true.
Proof.
  induction s as [|c s IH]; simpl; [by left|].
  destruct (isWhiteSpace c); simpl; [done|by right].
Qed.

(** White space after a text does not change its trimmed form. *)
Lemma trim_app_ws s t : forallb isWhiteSpace t = true -> trim (s ++ t) = trim s.
Proof.
  intros Ht. destruct (all_ws_or_ink s) as [Hs|Hs].
  - rewrite !trim_ws; [done..|]. by rewrite forallb_app, Hs, Ht.
  - unfold trim. rewrite trimStart_app_ink by done. by apply trimEnd_app_ws.
Qed.

Lemma trimEnd_ws s : forallb isWhiteSpace s = true -> trimEnd s = [].
Proof. intros H. by rewrite <- (app_nil_l s), trimEnd_app_ws. Qed.
End Trimming.

Lemma split_In (s l : jsstring) (c : N) : In l (split s) -> In c l -> In c s.
Proof.
  revert l. induction s as [|a s IH]; intros l; simpl.
  - by intros [<-|[]].
  - destruct (a =? nl)%N.
    + intros [<-|H] Hc; [done|]. right. by apply (IH l).
    + destruct (split s) as [|h tl] eqn:E; simpl.
      * intros [<-|[]] [->|[]]. by left.
      * intros [<-|H] Hc.
        -- destruct Hc as [->|Hc]; [by left|]. right. apply (IH h); [by left|done].
        -- right. apply (IH l); [by right|done].
Qed.

(** ** What serialize writes *)

(** X1: the output of [serializeToMarkdown] is already trimmed: trimming it
    again changes nothing, and it is empty or begins and ends with a code
    unit that is not white space. *)
Theorem serialize_is_trimmed (json : JSONContent) :
  trim (serializeToMarkdown json) = serializeToMarkdown json
  /\ (serializeToMarkdown json = []
      \/ (firstIsInk (serializeToMarkdown json) = true
          /\ lastIsInk (serializeToMarkdown json) = true)).
Proof.
  unfold serializeToMarkdown. destruct (content json) as [nodes|].
  - split; [apply trim_idem|apply trim_shape].
  - split; [done|by left].
Qed.

Lemma serializeNode_unsupported (node : JSONContent) :
  isSerialized node = false -> serializeNode node = [].
Proof.
  unfold isSerialized, serializeNode. rewrite !orb_false_iff.
  by intros ((((((-> & ->) & ->) & ->) & ->) & ->) & ->).
Qed.

(** X2: a node whose type is none of the seven that [serializeNode] handles
    (a task list, for one) leaves no trace in the Markdown: the document
    serializes as if the node were not there. *)
Theorem unsupported_node_is_dropped (before after : list JSONContent)
    (node : JSONContent) :
  isSerialized node = false ->
  serializeToMarkdown (docNode (before ++ node :: after))
  = serializeToMarkdown (docNode (before ++ after)).
Proof.
  intros H. unfold serializeToMarkdown. cbn [content docNode typed].
  rewrite !map_app, !concat_app. cbn [map concat].
  by rewrite serializeNode_unsupported.
Qed.

Lemma unsupported_node_is_dropped_witness :
  let taskList :=
    typed "taskList"
      (Some [typed "taskItem" (Some [paragraphNode (lit "call the bank")])]) in
  serializeToMarkdown
    (docNode ([headingNode 1 (lit "Plan")] ++ taskList
              :: [paragraphNode (lit "text")]))
  = serializeToMarkdown
      (docNode ([headingNode 1 (lit "Plan")] ++ [paragraphNode (lit "text")])).
Proof.
  apply (unsupported_node_is_dropped [headingNode 1 (lit "Plan")]).
  reflexivity.
Defined.

(** ** What parse reads *)

Lemma blank_lines_of_white_space (md : jsstring) :
  forallb isWhiteSpace md = true -> forallb isBlankLine (split md) = true.
Proof.
  intros H. apply forallb_forall. intros l Hl. unfold isBlankLine.
  rewrite trimEnd_ws; [done|]. apply forallb_forall. intros c Hc.
  apply (proj1 (forallb_forall _ _) H). by apply (split_In md l).
Qed.

(** X3: a Markdown text made of white space only (the empty text included)
    parses to the empty document. *)
Theorem parse_white_space (md : jsstring) :
  forallb isWhiteSpace md = true -> parseMarkdownToJSON md = docNode [].
Proof.
  intros H. unfold parseMarkdownToJSON.
  rewrite <- (app_nil_r (split md)).
  by rewrite step_blanks by by apply blank_lines_of_white_space.
Qed.

Lemma parse_white_space_witness :
  parseMarkdownToJSON [32; nl; 9; 13; nl; nl]%N = docNode [].
Proof. apply parse_white_space. reflexivity. Defined.

Lemma startsWith_inv (p s : jsstring) :
  startsWith p s = true -> exists x, s = p ++ x.
Proof.
  revert s. induction p as [|a p IH]; intros s; [by exists s|].
  destruct s as [|b s]; [done|]. cbn [startsWith].
  intros [->%N.eqb_eq [x ->]%IH]%andb_prop. by exists x.
Qed.

Lemma codeRegion_closed (ls rest : list jsstring) (close acc : jsstring) :
  forallb (fun l => negb (startsWith (lit "```") l)) ls = true ->
  startsWith (lit "```") close = true ->
  codeRegion (ls ++ close :: rest) acc
  = (acc ++ concat (map (fun l => l ++ [nl]) ls), rest).
Proof.
  revert acc. induction ls as [|l ls IH]; intros acc.
  - intros _ Hc. cbn [app codeRegion]. rewrite Hc. simpl.
    by rewrite app_nil_r.
  - intros [Hl Hls]%andb_prop Hc. apply negb_true_iff in Hl.
    cbn [app codeRegion]. rewrite Hl, IH by done.
    cbn [map concat]. by rewrite <- !app_assoc.
Qed.

Lemma codeRegion_open (ls : list jsstring) (acc : jsstring) :
  forallb (fun l => negb (startsWith (lit "```") l)) ls = true ->
  codeRegion ls acc = (acc ++ concat (map (fun l => l ++ [nl]) ls), []).
Proof.
  revert acc. induction ls as [|l ls IH]; intros acc.
  - intros _. simpl. by rewrite app_nil_r.
  - intros [Hl Hls]%andb_prop. apply negb_true_iff in Hl.
    cbn [codeRegion]. rewrite Hl, IH by done.
    cbn [map concat]. by rewrite <- !app_assoc.
Qed.

Lemma gathered_trim (ls : list jsstring) :
  trim (concat (map (fun l => l ++ [nl]) ls)) = trim (join [nl] ls).
Proof.
  destruct ls as [|l ls]; [done|].
  rewrite gathered_lines by done. by apply trim_app_ws.
Qed.

Lemma fence_line (raw : jsstring) :
  startsWith (lit "```") raw = true ->
  pastLists (trimEnd raw)
  /\ startsWith (lit "> ") (trimEnd raw) = false
  /\ startsWith (lit "```") (trimEnd raw) = true.
Proof.
  intros [x ->]%startsWith_inv.
  destruct (trimEnd_keeps_prefix (lit "```") x eq_refl) as [y ->].
  split; [by apply (pastLists_head 96)|done].
Qed.

(** X4: any line that starts with three backticks opens a code region,
    whatever follows the backticks on that line (an info string is read and
    discarded).  The region runs to the next raw line that starts with three
    backticks, and when the input ends first the block is closed with what
    was read; either way the lines between are joined and trimmed into one
    code block. *)
Theorem fence_region (raw close : jsstring) (ls rest : list jsstring)
    (st : ParseState) :
  startsWith (lit "```") raw = true ->
  forallb (fun l => negb (startsWith (lit "```") l)) ls = true ->
  parseLines (raw :: ls) st
  = pushBlock (codeBlockNode (trim (join [nl] ls))) (resetList st)
  /\ (startsWith (lit "```") close = true ->
      parseLines (raw :: ls ++ close :: rest) st
      = parseLines rest
          (pushBlock (codeBlockNode (trim (join [nl] ls))) (resetList st))).
Proof.
  intros (Hp & Hq & Hf)%fence_line Hls. split.
  - rewrite step_fence by done. rewrite codeRegion_open by done.
    cbn [fst snd app parseLines]. by rewrite gathered_trim.
  - intros Hc. rewrite step_fence by done.
    rewrite codeRegion_closed by done.
    cbn [fst snd app]. by rewrite gathered_trim.
Qed.

Lemma fence_region_witness :
  parseLines [lit "```js"; lit "  let x = 1"; []; lit "# not a heading"]
    (mkParseState [] None)
  = pushBlock
      (codeBlockNode
         (trim (join [nl] [lit "  let x = 1"; []; lit "# not a heading"])))
      (resetList (mkParseState [] None)).
Proof.
  apply (fence_region (lit "```js") [] _ [] (mkParseState [] None));
    reflexivity.
Defined.

(** ** The blocks parse builds *)

Section ParsedBlocks.
Implicit Types (line r t : jsstring) (st : ParseState) (bs : list Block).

Lemma lastIsInk_app_r s r : r <> [] -> lastIsInk (s ++ r) = lastIsInk r.
Proof.
  intros Hr. unfold lastIsInk. rewrite rev_app_distr.
  destruct (rev r) as [|c r'] eqn:E; [|done].
  apply (f_equal (@rev N)) in E. rewrite rev_involutive in E. done.
Qed.

(** The text that follows a white-space unit of a line text is a line text. *)
Lemma lineText_after_ws line pre w r :
  lineText line = true -> line = pre ++ w :: r -> isWhiteSpace w = true ->
  lineText r = true.
Proof.
  intros [Hs Hl]%lineText_inv -> Hw. unfold lineText.
  rewrite singleLine_app in Hs. apply andb_prop in Hs as [_ Hs].
  simpl in Hs. apply andb_prop in Hs as [_ ->]. simpl.
  destruct r as [|c r].
  - by rewrite lastIsInk_snoc, Hw in Hl.
  - change (pre ++ w :: c :: r) with (pre ++ [w] ++ c :: r) in Hl.
    by rewrite app_assoc, lastIsInk_app_r in Hl.
Qed.

Lemma reHashesWs_Some line r :
  reHashesWs line = Some r ->
  exists pre w, line = pre ++ w :: r /\ isWhiteSpace w = true.
Proof.
  unfold reHashesWs. intros H.
  pose proof (takeWhile_dropWhile (N.eqb 35) line) as E.
  destruct (takeWhile (N.eqb 35) line) as [|a pre]; [done|].
  destruct (dropWhile (N.eqb 35) line) as [|w r']; [done|].
  destruct (isWhiteSpace w) eqn:Hw; [|done]. injection H as ->.
  by exists (a :: pre), w.
Qed.

Lemma reBulletWs_Some line r :
  reBulletWs line = Some r ->
  exists pre w, line = pre ++ w :: r /\ isWhiteSpace w = true.
Proof.
  unfold reBulletWs. destruct line as [|c [|w r']]; try done.
  destruct ((c =? 45)%N || (c =? 42)%N); [|done].
  destruct (isWhiteSpace w) eqn:Hw; [|done]. intros [= ->].
  by exists [c], w.
Qed.

Lemma reQuoteWs_Some line r :
  reQuoteWs line = Some r ->
  exists pre w, line = pre ++ w :: r /\ isWhiteSpace w = true.
Proof.
  unfold reQuoteWs. destruct line as [|c [|w r']]; try done.
  destruct (c =? 62)%N; [|done].
  destruct (isWhiteSpace w) eqn:Hw; [|done]. intros [= ->].
  by exists [c], w.
Qed.

Lemma reOrderedWs_Some line r :
  reOrderedWs line = Some r ->
  exists pre w, line = pre ++ w :: r /\ isWhiteSpace w = true.
Proof.
  unfold reOrderedWs. intros H.
  pose proof (takeWhile_dropWhile isDigit line) as E.
  destruct (takeWhile isDigit line) as [|a pre]; [done|].
  destruct (dropWhile isDigit line) as [|d [|w r']]; try done.
  destruct (d =? 46)%N; [|done].
  destruct (isWhiteSpace w) eqn:Hw; [|done]. injection H as ->.
  exists ((a :: pre) ++ [d]), w. by rewrite <- app_assoc.
Qed.

Lemma lineText_replaceRe (re : jsstring -> option jsstring) line :
  (forall r, re line = Some r ->
             exists pre w, line = pre ++ w :: r /\ isWhiteSpace w = true) ->
  lineText line = true -> lineText (replaceRe re line) = true.
Proof.
  intros Hre Hl. unfold replaceRe. destruct (re line) as [r|]; [|done].
  destruct (Hre r eq_refl) as (pre & w & E & Hw).
  by apply (lineText_after_ws line pre w r).
Qed.

Lemma lineText_trimEnd raw :
  singleLine raw = true -> truthy (trimEnd raw) = true ->
  lineText (trimEnd raw) = true.
Proof.
  intros Hs Ht. unfold lineText.
  by rewrite singleLine_trimEnd, trimEnd_last.
Qed.

(** *** The scan keeps [parseInv] *)

Lemma openAfter_app o bs o' bs' :
  openAfter o bs = Some o' -> openAfter o (bs ++ bs') = openAfter o' bs'.
Proof.
  revert o. induction bs as [|b bs IH]; intros o; [by intros [= ->]|].
  destruct b; cbn [app openAfter];
    first [ apply IH | destruct (sameKind o _); [done|apply IH] ].
Qed.

Lemma openAfter_insert bs :
  forall o i k items items',
    bs !! i = Some (listBlock k items) ->
    openAfter o (<[i := listBlock k items']> bs) = openAfter o bs.
Proof.
  induction bs as [|b bs IH]; intros o i k items items'; [done|].
  destruct i as [|i]; simpl.
  - intros [= ->]. by destruct k.
  - intros H.
    destruct b; cbn [openAfter];
      first [ by apply (IH _ _ k items)
            | destruct (sameKind o _); [done|by apply (IH _ _ k items)] ].
Qed.

Lemma parseInv_pushHeading lvl t st :
  parsedBlock (Heading lvl t) = true -> parseInv st ->
  parseInv (pushBlock (encode (Heading lvl t)) st).
Proof.
  intros Hb (bs & o & Hbs & Hall & Hopen & Hcur).
  exists (bs ++ [Heading lvl t]), o.
  cbn [pushBlock blocks currentList]. split; [|split; [|split]].
  - by rewrite Hbs, map_app.
  - rewrite forallb_app, Hall. cbn [forallb]. by rewrite Hb.
  - by rewrite (openAfter_app _ _ o).
  - destruct (currentList st) as [i|]; [|done].
    destruct Hcur as (k & items & -> & Hi). exists k, items.
    split; [done|]. by apply lookup_app_l_Some.
Qed.

(** The reset followed by the push of a block that is no heading and no
    list. *)
Lemma parseInv_resetPush b st :
  (forall o, openAfter o [b] = Some None) ->
  parsedBlock b = true -> parseInv st ->
  parseInv (pushBlock (encode b) (resetList st)).
Proof.
  intros Hone Hb (bs & o & Hbs & Hall & Hopen & _).
  exists (bs ++ [b]), None.
  cbn [pushBlock resetList blocks currentList]. split; [|split; [|split]].
  - by rewrite Hbs, map_app.
  - rewrite forallb_app, Hall. cbn [forallb]. by rewrite Hb.
  - by rewrite (openAfter_app _ _ o).
  - done.
Qed.

Lemma pushChild_listBlock k items t :
  pushChild (listItemNode t) (encode (listBlock k items))
  = encode (listBlock k (items ++ [t])).
Proof. destruct k; unfold pushChild; simpl; by rewrite map_app. Qed.

Lemma alter_listBlock bs :
  forall i k items t,
    bs !! i = Some (listBlock k items) ->
    alter (pushChild (listItemNode t)) i (map encode bs)
    = map encode (<[i := listBlock k (items ++ [t])]> bs).
Proof.
  induction bs as [|b bs IH]; intros i k items t; [done|].
  destruct i as [|i]; simpl.
  - intros [= ->]. by rewrite pushChild_listBlock.
  - intros H. f_equal. by apply IH.
Qed.

Lemma forallb_insert (P : Block -> bool) bs i b :
  forallb P bs = true -> P b = true -> forallb P (<[i := b]> bs) = true.
Proof.
  revert i. induction bs as [|a bs IH]; intros i; [done|].
  simpl. intros [Ha Hbs]%andb_prop Hb. destruct i as [|i]; simpl.
  - by rewrite Hb.
  - by rewrite Ha, IH.
Qed.

Lemma forallb_lookup (P : Block -> bool) bs i b :
  forallb P bs = true -> bs !! i = Some b -> P b = true.
Proof.
  intros H Hi. apply (proj1 (forallb_forall _ _) H).
  apply list_elem_of_In. by apply (list_elem_of_lookup_2 _ i).
Qed.

Lemma parsedBlock_list k items : parsedBlock (listBlock k items) = listTexts items.
Proof. by destruct k. Qed.

Lemma encode_listBlock k items :
  encode (listBlock k items) = typed (typeName k) (Some (map listItemNode items)).
Proof. by destruct k. Qed.

Lemma parseInv_pushListItem k t st :
  lineText t = true -> parseInv st ->
  parseInv (pushListItem (typeName k) t st).
Proof.
  intros Ht (bs & o & Hbs & Hall & Hopen & Hcur).
  destruct (needsNewList (typeName k) st) eqn:Hnew.
  - rewrite pushListItem_new by done.
    exists (bs ++ [listBlock k [t]]), (Some k).
    cbn [blocks currentList]. split; [|split; [|split]].
    + rewrite Hbs, map_app. cbn [map]. by rewrite encode_listBlock.
    + rewrite forallb_app, Hall. simpl.
      rewrite parsedBlock_list. unfold listTexts. simpl. by rewrite Ht.
    + rewrite (openAfter_app _ _ o) by done.
      assert (sameKind o k = false) as Hk.
      { unfold needsNewList in Hnew.
        destruct (currentList st) as [i|]; [|by subst o].
        destruct Hcur as (k' & items & -> & Hi).
        rewrite Hbs in Hnew.
        change (map encode bs) with (encode <$> bs) in Hnew.
        rewrite list_lookup_fmap, Hi in Hnew. simpl in Hnew.
        apply negb_true_iff in Hnew. by destruct k, k'. }
      destruct k; cbn [listBlock openAfter]; by rewrite Hk.
    + exists k, [t]. split; [done|].
      rewrite Hbs, length_map. by apply list_lookup_middle.
  - unfold pushListItem. rewrite Hnew. unfold needsNewList in Hnew.
    destruct (currentList st) as [i|]; [|done].
    destruct Hcur as (k' & items & -> & Hi).
    assert (k' = k) as ->.
    { rewrite Hbs in Hnew.
      change (map encode bs) with (encode <$> bs) in Hnew.
      rewrite list_lookup_fmap, Hi in Hnew. simpl in Hnew.
      apply negb_false_iff in Hnew. by destruct k, k'. }
    exists (<[i := listBlock k (items ++ [t])]> bs), (Some k).
    cbn [blocks currentList]. split; [|split; [|split]].
    + rewrite Hbs. by apply alter_listBlock.
    + apply forallb_insert; [done|].
      pose proof (forallb_lookup _ _ _ _ Hall Hi) as Hp.
      rewrite parsedBlock_list in *. unfold listTexts in *.
      apply andb_prop in Hp as [_ Hp].
      rewrite forallb_app, Hp. simpl. rewrite Ht.
      by destruct items.
    + by rewrite (openAfter_insert _ _ _ _ items).
    + exists k, (items ++ [t]). split; [done|].
      apply list_lookup_insert_eq. by apply (lookup_lt_Some _ _ _ Hi).
Qed.

Lemma codeRegion_rest_length (ls : list jsstring) (acc : jsstring) :
  length (codeRegion ls acc).2 <= length ls.
Proof.
  revert acc. induction ls as [|l ls IH]; intros acc; [done|].
  cbn [codeRegion]. destruct (startsWith (lit "```") l); simpl; [lia|].
  specialize (IH (acc ++ l ++ [nl])). lia.
Qed.

Lemma codeRegion_rest_forall (P : jsstring -> bool) (ls : list jsstring)
    (acc : jsstring) :
  forallb P ls = true -> forallb P (codeRegion ls acc).2 = true.
Proof.
  revert acc. induction ls as [|l ls IH]; intros acc; [done|].
  cbn [codeRegion forallb]. intros [_ H]%andb_prop.
  destruct (startsWith (lit "```") l); [done|]. by apply IH.
Qed.

Lemma parsedBlock_code s : parsedBlock (CodeBlock (trim s)) = true.
Proof.
  cbn [parsedBlock]. destruct (trim_shape s) as [->|[-> ->]]; [done|].
  apply orb_true_r.
Qed.

Lemma parseLines_inv (n : nat) :
  forall lines st,
    length lines <= n -> forallb singleLine lines = true ->
    parseInv st -> parseInv (parseLines lines st).
Proof.
  induction n as [|n IH]; intros [|raw rest] st Hn Hlines Hinv;
    try done; [simpl in Hn; lia|].
  cbn [length] in Hn. apply andb_prop in Hlines as [Hraw Hrest].
  assert (Hlen : length rest <= n) by lia.
  destruct (truthy (trimEnd raw)) eqn:Ht;
    [|rewrite step_blank by done; by apply IH].
  pose proof (lineText_trimEnd raw Hraw Ht) as Hline.
  destruct (startsWith (lit "#") (trimEnd raw)) eqn:H0.
  { rewrite step_heading by done. apply IH; [done..|].
    apply parseInv_pushHeading; [|done].
    cbn [parsedBlock]. rewrite lineText_replaceRe;
      [|apply reHashesWs_Some|done].
    by destruct (hashRun (trimEnd raw)). }
  destruct (startsWith (lit "- ") (trimEnd raw)
            || startsWith (lit "* ") (trimEnd raw)) eqn:H1.
  { rewrite step_bullet by done. apply IH; [done..|].
    apply (parseInv_pushListItem Bullet); [|done].
    by apply lineText_replaceRe; [apply reBulletWs_Some|]. }
  destruct (testRe reOrderedWs (trimEnd raw)) eqn:H2.
  { rewrite step_ordered by done. apply IH; [done..|].
    apply (parseInv_pushListItem Ordered); [|done].
    by apply lineText_replaceRe; [apply reOrderedWs_Some|]. }
  assert (Hpast : pastLists (trimEnd raw)) by done.
  destruct (startsWith (lit "> ") (trimEnd raw)) eqn:H3.
  { rewrite step_quote by done. apply IH; [done..|].
    apply (parseInv_resetPush (Blockquote _)); [done| |done].
    by apply lineText_replaceRe; [apply reQuoteWs_Some|]. }
  destruct (startsWith (lit "```") (trimEnd raw)) eqn:H4.
  { rewrite step_fence by done. apply IH.
    - pose proof (codeRegion_rest_length rest []). lia.
    - by apply codeRegion_rest_forall.
    - apply (parseInv_resetPush (CodeBlock _)); [done| |done].
      apply parsedBlock_code. }
  destruct (streq (trimEnd raw) (lit "---")
            || streq (trimEnd raw) (lit "***")) eqn:H5.
  { rewrite step_rule by done. apply IH; [done..|].
    by apply (parseInv_resetPush Divider). }
  rewrite step_paragraph by done. apply IH; [done..|].
  apply (parseInv_resetPush (Paragraph _)); [done| |done].
  cbn [parsedBlock]. unfold plainText.
  by rewrite Hline, H0, H1, H2, H3, H4, H5.
Qed.
End ParsedBlocks.

(** X5: whatever the Markdown, [parseMarkdownToJSON] returns a document of
    the seven block shapes in which every heading has level at least 1, every
    heading, list-item and quote text is a non-empty single line without
    trailing white space, every paragraph text is such a line that none of
    the other line forms matches, every list has at least one item, every
    code text is trimmed, and no list follows a list of its own kind with
    only headings between them. *)
Theorem parse_builds_parsed_blocks (markdown : jsstring) :
  exists bs,
    parseMarkdownToJSON markdown = encodeDoc bs
    /\ forallb parsedBlock bs = true
    /\ listsSeparated bs = true.
Proof.
  destruct (parseLines_inv (length (split markdown)) (split markdown)
              (mkParseState [] None)) as (bs & o & Hbs & Hall & Hopen & _).
  - done.
  - apply split_lines_single.
  - by exists [], None.
  - exists bs. unfold parseMarkdownToJSON, encodeDoc, listsSeparated.
    rewrite Hbs, Hopen. by rewrite bool_decide_eq_true_2.
Qed.

(** ** List lines are normalised *)

Lemma serialized_lines (bs : list Block) :
  bs <> [] -> roundTrippable bs = true ->
  serializeToMarkdown (encodeDoc bs) = join [nl] (docLines bs).
Proof.
  intros Hne [Hscan Hfirst]%andb_prop.
  unfold serializeToMarkdown, encodeDoc. cbn [content docNode typed].
  rewrite (serialize_doc bs None) by done.
  apply trim_block; [| |done].
  - by apply firstLineInk_join, (docLines_first bs None).
  - by apply lastLineInk_join, (docLines_last bs None).
Qed.

Lemma read_numbered (num : nat -> nat) (items : list jsstring)
    (rest : list jsstring) (st : ParseState) :
  needsNewList "orderedList" st = true ->
  listTexts items = true ->
  parseLines
    (imap (fun i t => numToString (num i) ++ lit ". " ++ t) items ++ rest) st
  = parseLines rest
      (mkParseState (blocks st ++ [encode (OrderedList items)])
                    (Some (length (blocks st)))).
Proof.
  intros Hnew [Hne Hall]%andb_prop.
  destruct items as [|t items]; [done|].
  apply andb_prop in Hall as [[_ Ht]%lineText_inv Hts].
  destruct (numbered_line (num 0) t Ht) as (Hraw & H0 & H1 & H2 & Hr).
  rewrite imap_cons. cbn [app].
  rewrite step_ordered; rewrite Hraw; [|done..].
  rewrite Hr, pushListItem_new by done.
  change [listItemNode t] with (map listItemNode [t]).
  by rewrite (read_ordered_items items (num ∘ S)).
Qed.

(** X6: the numbers written in front of ordered-list lines are not kept.
    Whatever numbers the lines carry, they parse to the one ordered list of
    their texts, and serialize numbers the items 1, 2, 3, ... by position. *)
Theorem ordered_numbers_are_recomputed (num : nat -> nat)
    (items : list jsstring) :
  listTexts items = true ->
  parseMarkdownToJSON
    (join [nl] (imap (fun i t => numToString (num i) ++ lit ". " ++ t) items))
  = encodeDoc [OrderedList items]
  /\ serializeToMarkdown (encodeDoc [OrderedList items])
     = join [nl] (imap (fun i t => numToString (i + 1) ++ lit ". " ++ t) items).
Proof.
  intros Hitems. split.
  - unfold parseMarkdownToJSON, encodeDoc. f_equal.
    assert (Hall : forallb lineText items = true)
      by by apply andb_prop in Hitems as [_ ?].
    rewrite split_join.
    + rewrite <- (app_nil_r (imap _ items)).
      by rewrite read_numbered.
    + destruct items; [done|]. by rewrite imap_cons.
    + apply (numbered_lines singleLine items). intros k t Ht.
      destruct (lineText_forall _ _ Hall Ht) as [Hs _].
      by rewrite !singleLine_app, numToString_single, Hs.
  - rewrite serialized_lines;
      [cbn [docLines blockLines]; by rewrite app_nil_r|done|].
    unfold roundTrippable. cbn [scannable firstBlockOk sameKind negb].
    by rewrite Hitems.
Qed.

Lemma ordered_numbers_are_recomputed_witness :
  parseMarkdownToJSON
    (join [nl] (imap (fun i t => numToString (7 * i) ++ lit ". " ++ t)
                     [lit "first"; lit "second"; lit "third"]))
  = encodeDoc [OrderedList [lit "first"; lit "second"; lit "third"]].
Proof.
  apply (ordered_numbers_are_recomputed (fun i => 7 * i)). reflexivity.
Defined.

Lemma bulletLine_item (item : bool * jsstring) :
  lineText item.2 = true ->
  singleLine (bulletLine item) = true
  /\ isItemLine Bullet (bulletLine item) = true
  /\ itemText Bullet (bulletLine item) = item.2.
Proof.
  intros [Hs Hl]%lineText_inv. unfold isItemLine, itemText, bulletLine.
  destruct item as [[] t]; cbn [fst snd] in *;
    (rewrite trimEnd_ink by by apply lastIsInk_app);
    by rewrite singleLine_app, Hs.
Qed.

Lemma read_marked_items (items : list (bool * jsstring)) :
  forall done B rest,
    forallb lineText (map snd items) = true ->
    parseLines (map bulletLine items ++ rest)
      (mkParseState
         (B ++ [typed "bulletList" (Some (map listItemNode done))])
         (Some (length B)))
    = parseLines rest
        (mkParseState
           (B ++ [typed "bulletList"
                    (Some (map listItemNode (done ++ map snd items)))])
           (Some (length B))).
Proof.
  induction items as [|it items IH]; intros done B rest.
  - intros _. simpl. by rewrite app_nil_r.
  - cbn [map forallb]. intros [Ht Hts]%andb_prop.
    destruct (bulletLine_item it Ht) as (_ & Hitem & Htext).
    cbn [app]. rewrite (step_item Bullet) by done.
    rewrite Htext. cbn [typeName]. rewrite pushListItem_current.
    change [listItemNode it.2] with (map listItemNode [it.2]).
    rewrite <- map_app, IH by done. by rewrite <- app_assoc.
Qed.

(** X7: a bullet line may begin with a hyphen or with an asterisk; lines with
    either marker, in any mix, parse to the one bullet list of their texts,
    and serialize writes every item with a hyphen. *)
Theorem bullet_markers_are_normalised (items : list (bool * jsstring)) :
  listTexts (map snd items) = true ->
  parseMarkdownToJSON (join [nl] (map bulletLine items))
  = encodeDoc [BulletList (map snd items)]
  /\ serializeToMarkdown (encodeDoc [BulletList (map snd items)])
     = join [nl] (map (fun t => lit "- " ++ t) (map snd items)).
Proof.
  intros Hitems. split.
  - unfold parseMarkdownToJSON, encodeDoc. f_equal.
    assert (Hall : forallb lineText (map snd items) = true)
      by by apply andb_prop in Hitems as [_ ?].
    destruct items as [|it items]; [done|].
    cbn [map forallb] in Hall. apply andb_prop in Hall as [Ht Hts].
    destruct (bulletLine_item it Ht) as (Hs & Hitem & Htext).
    rewrite split_join; [|done|].
    + cbn [map]. rewrite (step_item Bullet) by done.
      rewrite Htext. cbn [typeName].
      rewrite pushListItem_new by done.
      rewrite <- (app_nil_r (map bulletLine items)).
      change [listItemNode it.2] with (map listItemNode [it.2]).
      by rewrite (read_marked_items items [it.2] []).
    + cbn [map forallb]. rewrite Hs. apply forallb_forall.
      intros l (it' & <- & Hin)%in_map_iff.
      apply bulletLine_item.
      apply (proj1 (forallb_forall _ _) Hts). by apply in_map.
  - rewrite serialized_lines;
      [cbn [docLines blockLines]; by rewrite app_nil_r|done|].
    unfold roundTrippable. cbn [scannable firstBlockOk sameKind negb].
    by rewrite Hitems.
Qed.

Lemma bullet_markers_are_normalised_witness :
  parseMarkdownToJSON
    (join [nl] (map bulletLine [(false, lit "a"); (true, lit "b");
                                (false, lit "c")]))
  = encodeDoc [BulletList (map snd [(false, lit "a"); (true, lit "b");
                                    (false, lit "c")])].
Proof.
  apply (bullet_markers_are_normalised
           [(false, lit "a"); (true, lit "b"); (false, lit "c")]).
  reflexivity.
Defined.

(** ** Section titles *)

Lemma extractSections_break (a b : jsstring) :
  extractSections (a ++ nl :: b) = extractSections a ++ extractSections b.
Proof.
  unfold extractSections. by rewrite split_app_nl, filter_app, map_app.
Qed.

(** X8: [extractSections] works line by line: the titles of two texts joined
    by a line break are the titles of the first followed by the titles of the
    second, and the empty text has no titles. *)
Theorem extractSections_app (a b : jsstring) :
  extractSections (a ++ nl :: b) = extractSections a ++ extractSections b
  /\ extractSections [] = [].
Proof. split; [apply extractSections_break|done]. Qed.

Lemma trim_In (s : jsstring) (c : N) : In c (trim s) -> In c s.
Proof. unfold trim, trimStart. by intros H%trimEnd_In%dropWhile_In. Qed.

Lemma replaceRe_reHashWs_In (l : jsstring) (c : N) :
  In c (replaceRe reHashWs l) -> In c l.
Proof.
  unfold replaceRe, reHashWs. destruct l as [|a [|w r]]; try done.
  destruct ((a =? 35)%N && isWhiteSpace w); [|done].
  simpl. auto.
Qed.

(** X9: every title [extractSections] returns is already trimmed and
    contains no line break, whatever the Markdown. *)
Theorem extracted_titles_are_trimmed (markdown : jsstring) :
  Forall (fun title => trim title = title /\ singleLine title = true)
         (extractSections markdown).
Proof.
  unfold extractSections. apply Forall_forall.
  intros title Ht. apply in_map_iff in Ht.
  destruct Ht as (l & <- & [Hl _]%filter_In).
  split; [apply trim_idem|].
  unfold singleLine. apply forallb_forall.
  intros c Hc%trim_In%replaceRe_reHashWs_In.
  pose proof (split_lines_single markdown) as Hs.
  apply (proj1 (forallb_forall _ _) Hs) in Hl.
  by apply (proj1 (forallb_forall _ _) Hl).
Qed.

Lemma filter_none {A} (p : A -> bool) (l : list A) :
  (forall x, In x l -> p x = false) -> List.filter p l = [].
Proof.
  induction l as [|x l IH]; [done|]. intros H. simpl.
  rewrite (H x) by by left. apply IH. intros y Hy. apply H. by right.
Qed.

Lemma startsWith_hash_space (l : jsstring) :
  startsWith (lit "#") l = false -> startsWith (lit "# ") l = false.
Proof.
  destruct l as [|a l]; [done|]. lits. cbn [startsWith].
  rewrite andb_true_r. by intros ->.
Qed.

(** The titles found among the lines of one block. *)
Lemma blockLines_sections (o : option ListKind) (b : Block) :
  scannable o [b] = true ->
  map (fun l => trim (replaceRe reHashWs l))
      (List.filter (startsWith (lit "# ")) (blockLines b))
  = blockSections b.
Proof.
  intros Hok. destruct b as [lvl t|t|items|items|t|t|];
    cbn [scannable blockLines blockSections] in *;
    rewrite ?andb_true_r in Hok.
  - apply andb_prop in Hok as [Hlvl _].
    destruct lvl as [|[|n]]; [done|reflexivity|].
    rewrite filter_none; [done|]. intros l [<-|[]].
    rewrite repeatStr_hash. reflexivity.
  - apply plainText_inv in Hok as (_ & (_ & H0 & _) & _).
    rewrite filter_none; [done|]. intros l [<-|[]].
    by apply startsWith_hash_space.
  - rewrite filter_none; [done|]. by intros l (t & <- & _)%in_map_iff.
  - rewrite filter_none; [done|]. intros l Hl. apply negb_true_iff.
    revert l Hl. apply forallb_forall.
    apply (numbered_lines (fun l => negb (startsWith (lit "# ") l)) items).
    intros k t _. destruct (ordered_line k t) as (H0 & _).
    by rewrite startsWith_hash_space.
  - cbn [List.filter]. change (startsWith (lit "# ") (lit "```")) with false.
    cbv iota. rewrite filter_app. cbn [List.filter].
    change (startsWith (lit "# ") (lit "```")) with false. cbv iota.
    by rewrite app_nil_r.
  - reflexivity.
  - reflexivity.
Qed.

Lemma docLines_sections (bs : list Block) :
  forall o,
    scannable o bs = true ->
    map (fun l => trim (replaceRe reHashWs l))
        (List.filter (startsWith (lit "# ")) (docLines bs))
    = concat (map blockSections bs).
Proof.
  induction bs as [|b bs IH]; intros o Hok; [done|].
  apply scannable_cons in Hok as [Hb Hbs]. cbn [docLines map concat].
  rewrite filter_app, map_app, (blockLines_sections o) by done.
  f_equal. destruct bs as [|b' bs]; [done|].
  cbn [List.filter]. change (startsWith (lit "# ") []) with false.
  cbv iota. by apply (IH (nextOpen o b)).
Qed.

(** X10: for a [roundTrippable] document, the section titles of its Markdown
    are, in block order, the trimmed text of each level-1 heading, together
    with every line of a code block that begins with a hash and a space:
    [extractSections] reads raw lines and does not know about fences.  No
    other block contributes a title. *)
Theorem serialized_sections (bs : list Block) :
  roundTrippable bs = true ->
  extractSections (serializeToMarkdown (encodeDoc bs))
  = concat (map blockSections bs).
Proof.
  intros Hok. destruct (decide (bs = [])) as [->|Hne]; [reflexivity|].
  rewrite serialized_lines by done.
  apply andb_prop in Hok as [Hscan _]. unfold extractSections.
  rewrite split_join;
    [|by apply (docLines_nonempty bs None)|by apply (docLines_single bs None)].
  by apply (docLines_sections bs None).
Qed.

Lemma serialized_sections_witness :
  extractSections
    (serializeToMarkdown
       (encodeDoc [Heading 1 (lit "Problem"); Paragraph (lit "text");
                   Heading 2 (lit "Detail");
                   CodeBlock (unlines [lit "# shell"; lit "ls"]);
                   Heading 1 (lit "Solution")]))
  = [lit "Problem"; lit "shell"; lit "Solution"].
Proof.
  apply (serialized_sections
           [Heading 1 (lit "Problem"); Paragraph (lit "text");
            Heading 2 (lit "Detail");
            CodeBlock (unlines [lit "# shell"; lit "ls"]);
            Heading 1 (lit "Solution")]).
  reflexivity.
Defined.

(** ** Parsing again what was parsed *)

Lemma listItemNode_inj (items items' : list jsstring) :
  map listItemNode items = map listItemNode items' -> items = items'.
Proof.
  revert items'. induction items as [|t items IH]; intros [|t' items'];
    try done.
  cbn [map]. intros [= -> H]. f_equal. by apply IH.
Qed.

Lemma encode_inj (b b' : Block) : encode b = encode b' -> b = b'.
Proof.
  intros H. pose proof (f_equal type H) as Ht.
  destruct b, b'; vm_compute in Ht; try discriminate Ht; clear Ht;
    unfold encode, headingNode, paragraphNode, blockquoteNode, codeBlockNode,
      typed, textNode in H;
    try (injection H; intros; subst; done).
  - injection H as H. by rewrite (listItemNode_inj _ _ H).
  - injection H as H. by rewrite (listItemNode_inj _ _ H).
  - done.
Qed.

Lemma encodeDoc_inj (bs bs' : list Block) :
  encodeDoc bs = encodeDoc bs' -> bs = bs'.
Proof.
  unfold encodeDoc, docNode, typed. intros [= H]. revert bs' H.
  induction bs as [|b bs IH]; intros [|b' bs']; try done.
  cbn [map]. intros [= Hb H]. f_equal; [by apply encode_inj|by apply IH].
Qed.

Lemma scannable_parsed (bs : list Block) :
  forall o o',
    forallb parsedBlock bs = true -> forallb fenceFree bs = true ->
    openAfter o bs = Some o' -> scannable o bs = true.
Proof.
  induction bs as [|b bs IH]; intros o o'; [done|].
  cbn [forallb]. intros [Hb Hbs]%andb_prop [Hf Hfs]%andb_prop.
  destruct b as [lvl t|t|items|items|t|t|];
    cbn [openAfter scannable parsedBlock fenceFree] in *.
  - rewrite Hb. intros Ho. by apply (IH _ o').
  - rewrite Hb. intros Ho. by apply (IH _ o').
  - rewrite Hb. destruct (sameKind o Bullet); [done|].
    intros Ho. by apply (IH _ o').
  - rewrite Hb. destruct (sameKind o Ordered); [done|].
    intros Ho. by apply (IH _ o').
  - unfold codeText. rewrite Hb, Hf. intros Ho. by apply (IH _ o').
  - rewrite Hb. intros Ho. by apply (IH _ o').
  - intros Ho. by apply (IH _ o').
Qed.

Lemma reads_back (bs : list Block) :
  roundTrippable bs = true ->
  parseMarkdownToJSON (serializeToMarkdown (encodeDoc bs)) = encodeDoc bs.
Proof.
  intros Hok. destruct (decide (bs = [])) as [->|Hne]; [reflexivity|].
  rewrite serialized_lines by done.
  apply andb_prop in Hok as [Hscan _].
  unfold parseMarkdownToJSON, encodeDoc. f_equal.
  rewrite split_join;
    [|by apply (docLines_nonempty bs None)|by apply (docLines_single bs None)].
  by rewrite (read_doc bs None).
Qed.

(** X11: parsing is stable under a further serialize and parse.  When the
    blocks parsed from a Markdown text have no code line starting with a
    fence, and do not begin with a paragraph whose text starts with white
    space, writing them out and parsing again returns the same blocks: the
    other conditions of the round trip hold for everything parse builds. *)
Theorem reparse_is_stable (markdown : jsstring) (bs : list Block) :
  parseMarkdownToJSON markdown = encodeDoc bs ->
  forallb fenceFree bs = true -> firstBlockOk bs = true ->
  parseMarkdownToJSON (serializeToMarkdown (encodeDoc bs)) = encodeDoc bs.
Proof.
  intros Hparse Hfence Hfirst.
  destruct (parseLines_inv (length (split markdown)) (split markdown)
              (mkParseState [] None)) as (bs' & o & Hbs & Hall & Hopen & _);
    [done|apply split_lines_single|by exists [], None|].
  assert (bs' = bs) as ->.
  { apply encodeDoc_inj. rewrite <- Hparse.
    unfold parseMarkdownToJSON, encodeDoc. by rewrite Hbs. }
  apply reads_back. unfold roundTrippable.
  by rewrite (scannable_parsed bs None o), Hfirst.
Qed.

Lemma reparse_is_stable_witness :
  let bs := [BulletList [lit "a"; lit "b"]; Heading 1 (lit "H");
             OrderedList [lit "x"]; CodeBlock (lit "code");
             Paragraph (lit "p")] in
  parseMarkdownToJSON (serializeToMarkdown (encodeDoc bs)) = encodeDoc bs.
Proof.
  apply (reparse_is_stable
           (unlines [lit "* a  "; []; lit "- b"; lit "# H"; lit "7. x";
                     lit "```js"; lit "  code"; lit "```"; lit "p"]));
    vm_compute; reflexivity.
Defined.

(** The two conditions are needed. *)
Example reparse_boundaries :
  let again md :=
    parseMarkdownToJSON (serializeToMarkdown (parseMarkdownToJSON md)) in
  parseMarkdownToJSON (lit " p") = encodeDoc [Paragraph (lit " p")]
  /\ again (lit " p") = encodeDoc [Paragraph (lit "p")]
  /\ parseMarkdownToJSON (unlines [lit "```"; lit "  ```x"; lit "```"])
     = encodeDoc [CodeBlock (lit "```x")]
  /\ again (unlines [lit "```"; lit "  ```x"; lit "```"])
     = encodeDoc [CodeBlock []; CodeBlock []].
Proof. repeat split; vm_compute; reflexivity. Qed.

(** ** Trailing white space on a line *)

Lemma trimEnd_idem (s : jsstring) : trimEnd (trimEnd s) = trimEnd s.
Proof.
  destruct (truthy (trimEnd s)) eqn:E.
  - by apply trimEnd_ink, trimEnd_last.
  - by destruct (trimEnd s).
Qed.

(** X12: the scan reads a line without its trailing white space: at any
    position outside a code region, a line and the same line with its
    trailing white space removed leave the scan in the same state, and a
    one-line text parses as its end-trimmed form does. *)
Theorem trailing_white_space_is_ignored (raw : jsstring)
    (rest : list jsstring) (st : ParseState) :
  parseLines (raw :: rest) st = parseLines (trimEnd raw :: rest) st
  /\ (singleLine raw = true ->
      parseMarkdownToJSON raw = parseMarkdownToJSON (trimEnd raw)).
Proof.
  assert (H : forall rest st,
             parseLines (raw :: rest) st
             = parseLines (trimEnd raw :: rest) st).
  { intros rest' st'. cbn [parseLines]. by rewrite trimEnd_idem. }
  split; [done|]. intros Hs. unfold parseMarkdownToJSON.
  rewrite !split_singleLine by by rewrite ?singleLine_trimEnd.
  by rewrite H.
Qed.

(** * Further properties of the session *)

(** ** Reconciliation and the Markdown *)

Lemma reconcile_ids (previousMeta : list SectionMeta)
    (currentTitles : list jsstring) (now : N) (editedByUser : bool) :
  map id (reconcile previousMeta currentTitles now editedByUser)
  = currentTitles.
Proof.
  unfold reconcile, reconcileUser, reconcileAI.
  destruct editedByUser; rewrite map_map;
    rewrite <- (map_id currentTitles) at 2; apply map_ext; intros title;
    destruct (findSection title previousMeta) as [e|] eqn:E; try done;
    by apply findSection_Some in E as [-> _].
Qed.

(** X13: a user edit either returns the session it was given (the no-op
    guard) or a session whose metadata ids are exactly the section titles of
    its Markdown, in order; a rewrite result likewise. *)
Theorem session_ids_follow_markdown (now : N) (newMarkdown : jsstring)
    (newJson : JSONContent) (prev : DocumentState) :
  let edited := handleDocUpdate now newMarkdown newJson prev in
  let rewritten := applyRewriteResult now newMarkdown prev in
  (edited = prev
   \/ map id (sections edited) = extractSections (markdown edited))
  /\ (rewritten = prev
      \/ map id (sections rewritten) = extractSections (markdown rewritten)).
Proof.
  unfold handleDocUpdate, applyRewriteResult. split.
  - destruct (streq (markdown prev) newMarkdown); [by left|right].
    apply (reconcile_ids _ _ now true).
  - destruct (truthy newMarkdown); [right|by left].
    apply (reconcile_ids _ _ now false).
Qed.

Lemma findSection_map (f : jsstring -> SectionMeta) (titles : list jsstring)
    (h : jsstring) :
  (forall x, id (f x) = x) -> In h titles ->
  findSection h (map f titles) = Some (f h).
Proof.
  intros Hid. unfold findSection, streq.
  induction titles as [|x titles IH]; [done|]. cbn [map find].
  rewrite Hid. destruct (decide (x = h)) as [->|Hne].
  - by rewrite bool_decide_eq_true_2.
  - rewrite bool_decide_eq_false_2 by done. intros [?|Hin]; [done|].
    by apply IH.
Qed.

(** X14: reconciliation is idempotent: reconciling its own result against
    the same titles at the same time returns that result, for a user edit and
    for an AI rewrite alike. *)
Theorem reconcile_idempotent (previousMeta : list SectionMeta)
    (currentTitles : list jsstring) (now : N) (editedByUser : bool) :
  reconcile (reconcile previousMeta currentTitles now editedByUser)
            currentTitles now editedByUser
  = reconcile previousMeta currentTitles now editedByUser.
Proof.
  unfold reconcile. destruct editedByUser.
  - unfold reconcileUser at 1. apply map_ext_in. intros h Hh.
    unfold reconcileUser. rewrite findSection_map; [|intros x|done].
    + by destruct (findSection h previousMeta).
    + destruct (findSection x previousMeta) as [e|] eqn:E; [|done].
      by apply findSection_Some in E as [-> _].
  - unfold reconcileAI at 1. apply map_ext_in. intros h Hh.
    unfold reconcileAI. rewrite findSection_map; [done|intros x|done].
    destruct (findSection x previousMeta) as [e|] eqn:E; [|done].
    by apply findSection_Some in E as [-> _].
Qed.

(** ** Locks after an update *)

Lemma filter_all {A} (p : A -> bool) (l : list A) :
  (forall x, In x l -> p x = true) -> List.filter p l = l.
Proof.
  induction l as [|x l IH]; [done|]. intros H. simpl.
  rewrite (H x) by by left. f_equal. apply IH. intros y Hy. apply H. by right.
Qed.

Lemma reconcileUser_stamp (now : N) (prev : list SectionMeta)
    (titles : list jsstring) (s : SectionMeta) :
  In s (reconcileUser now prev titles) -> editedAt s = now.
Proof.
  unfold reconcileUser. intros (h & <- & _)%in_map_iff.
  by destruct (findSection h prev).
Qed.

(** X15: after a user edit that changes the Markdown at time [now] (not the
    epoch itself), every section title of the new Markdown is on the locked
    list for as long as less than two minutes have passed; from two minutes
    on, only the entries that carry the explicit flag are. *)
Theorem user_edit_locks_sections (now later : N) (newMarkdown : jsstring)
    (newJson : JSONContent) (prev : DocumentState) :
  markdown prev <> newMarkdown -> (0 < now)%N ->
  let next := handleDocUpdate now newMarkdown newJson prev in
  ((Z.of_N later - Z.of_N now < recencyWindow)%Z ->
   lockedSections later (sections next) = extractSections newMarkdown)
  /\ ((recencyWindow <= Z.of_N later - Z.of_N now)%Z ->
      lockedSections later (sections next)
      = map id (List.filter locked (sections next))).
Proof.
  intros Hne Hnow next.
  assert (Hids : map id (sections next) = extractSections newMarkdown).
  { subst next. unfold handleDocUpdate, streq.
    rewrite bool_decide_eq_false_2 by done.
    apply (reconcile_ids _ _ now true). }
  assert (Hstamp : forall s, In s (sections next) -> editedAt s = now).
  { subst next. unfold handleDocUpdate, streq.
    rewrite bool_decide_eq_false_2 by done. apply reconcileUser_stamp. }
  unfold lockedSections. split; intros Hwin.
  - rewrite filter_all; [done|]. intros s Hs. unfold isLocked.
    rewrite (Hstamp s Hs).
    rewrite (proj2 (Z.ltb_lt _ _) Hwin), (proj2 (N.ltb_lt _ _) Hnow).
    apply orb_true_r.
  - f_equal. apply filter_ext_in. intros s Hs. unfold isLocked.
    rewrite (Hstamp s Hs).
    rewrite (proj2 (Z.ltb_ge _ _) Hwin). by rewrite orb_false_r.
Qed.

Lemma user_edit_locks_sections_witness :
  lockedSections 1700000090000
    (sections
       (handleDocUpdate 1700000000000
          (unlines [lit "# Problem"; []; lit "text"; []; lit "# Solution"])
          (docNode []) (initialDocState 1690000000000)))
  = extractSections
      (unlines [lit "# Problem"; []; lit "text"; []; lit "# Solution"]).
Proof.
  apply (user_edit_locks_sections 1700000000000 1700000090000); reflexivity
    || (vm_compute; discriminate).
Defined.

(** X16: a section that an AI rewrite introduces (a title with no previous
    entry) is stamped with the time of the rewrite, so it is on the locked
    list, locked against the next AI rewrite, until two minutes have passed. *)
Theorem ai_rewrite_locks_new_sections (now later : N)
    (newMarkdown title : jsstring) (prev : DocumentState) :
  newMarkdown <> [] -> (0 < now)%N ->
  (Z.of_N later - Z.of_N now < recencyWindow)%Z ->
  In title (extractSections newMarkdown) ->
  findSection title (sections prev) = None ->
  In title
     (lockedSections later (sections (applyRewriteResult now newMarkdown prev))).
Proof.
  intros Hne Hnow Hwin Hin Hnone. unfold applyRewriteResult.
  destruct newMarkdown as [|c m]; [done|]. cbn [truthy sections].
  unfold lockedSections. apply in_map_iff.
  exists (mkSectionMeta title now false). split; [done|].
  apply filter_In. split.
  - unfold reconcileAI. apply in_map_iff. exists title. by rewrite Hnone.
  - unfold isLocked. cbn [locked editedAt orb].
    by rewrite (proj2 (Z.ltb_lt _ _) Hwin), (proj2 (N.ltb_lt _ _) Hnow).
Qed.

Lemma ai_rewrite_locks_new_sections_witness :
  In (lit "Solution")
     (lockedSections 1700000030000
        (sections
           (applyRewriteResult 1700000000000
              (unlines [lit "# Problem"; []; lit "# Solution"])
              (mkDocumentState (lit "# Problem")
                 (parseMarkdownToJSON (lit "# Problem"))
                 [mkSectionMeta (lit "Problem") 0 false] 1690000000000)))).
Proof.
  apply ai_rewrite_locks_new_sections;
    try reflexivity; try (vm_compute; discriminate).
  vm_compute. right. by left.
Defined.

(** X17: no handler sets the explicit lock flag.  The initial session has no
    flagged entry, and a user edit, a rewrite result and the next-section
    button each turn a session without flagged entries into one without
    flagged entries. *)
Theorem lock_flag_is_never_set (now : N) (newMarkdown : jsstring)
    (newJson : JSONContent) (prev : DocumentState) :
  neverFlagged prev = true ->
  neverFlagged (initialDocState now) = true
  /\ neverFlagged (handleDocUpdate now newMarkdown newJson prev) = true
  /\ neverFlagged (applyRewriteResult now newMarkdown prev) = true
  /\ neverFlagged (handleNextSection now prev) = true.
Proof.
  unfold neverFlagged. intros Hprev.
  assert (Hfind : forall h e,
             findSection h (sections prev) = Some e -> locked e = false).
  { intros h e [_ Hin]%findSection_Some. apply negb_true_iff.
    revert e Hin. by apply forallb_forall. }
  split; [done|]. split; [|split].
  - unfold handleDocUpdate. destruct (streq _ _); [done|].
    cbn [sections]. apply forallb_forall.
    intros s (h & <- & _)%in_map_iff.
    destruct (findSection h (sections prev)) as [e|] eqn:E; [|done].
    simpl. by rewrite (Hfind h e).
  - unfold applyRewriteResult. destruct (truthy _); [|done].
    cbn [sections]. apply forallb_forall.
    intros s (h & <- & _)%in_map_iff.
    destruct (findSection h (sections prev)) as [e|] eqn:E; [|done].
    by rewrite (Hfind h e).
  - unfold handleNextSection. destruct (_ <=? _); [done|].
    destruct (INITIAL_SECTIONS !! _); [|done]. cbn [sections].
    by rewrite forallb_app, Hprev.
Qed.

Lemma lock_flag_is_never_set_witness :
  neverFlagged
    (handleDocUpdate 1700000000000 (lit "# A") (docNode [])
       (initialDocState 1690000000000))
  = true.
Proof.
  apply (lock_flag_is_never_set 1700000000000 (lit "# A") (docNode [])
           (initialDocState 1690000000000)).
  reflexivity.
Defined.

(** ** The next-section button *)

Lemma catalog_titles (title : jsstring) :
  In title INITIAL_SECTIONS ->
  extractSections (lit "# " ++ title) = [title]
  /\ lastIsInk title = true.
Proof.
  assert (H : forallb (fun t =>
                         bool_decide (extractSections (lit "# " ++ t) = [t])
                         && lastIsInk t) INITIAL_SECTIONS = true)
    by (vm_compute; reflexivity).
  intros Hin. apply (proj1 (forallb_forall _ _) H) in Hin.
  apply andb_prop in Hin as [Heq Hl]. by apply bool_decide_eq_true in Heq.
Qed.

Lemma isLocked_scaffold (later : N) (title : jsstring) :
  isLocked later (mkSectionMeta title 0 false) = false.
Proof. unfold isLocked. cbn [locked editedAt orb]. apply andb_false_r. Qed.

Lemma handleNextSection_some (now : N) (st : DocumentState)
    (title : jsstring) :
  INITIAL_SECTIONS !! length (extractSections (markdown st)) = Some title ->
  handleNextSection now st
  = let newMarkdown :=
      trim (markdown st) ++ [nl; nl] ++ lit "# " ++ title ++ [nl; nl] in
    mkDocumentState newMarkdown (parseMarkdownToJSON newMarkdown)
      (sections st ++ [mkSectionMeta title 0 false]) now.
Proof.
  intros H. unfold handleNextSection. rewrite H.
  apply lookup_lt_Some in H.
  by rewrite (proj2 (Nat.leb_gt _ _) H).
Qed.

Lemma next_markdown_sections (md title : jsstring) :
  In title INITIAL_SECTIONS ->
  extractSections (md ++ [nl; nl] ++ lit "# " ++ title ++ [nl; nl])
  = extractSections md ++ [title]
  /\ extractSections (md ++ [nl; nl] ++ lit "# " ++ title)
     = extractSections md ++ [title].
Proof.
  intros [Ht _]%catalog_titles. cbn [app].
  change (md ++ nl :: nl :: lit "# " ++ title ++ [nl; nl])
    with (md ++ nl :: [] ++ nl :: (lit "# " ++ title) ++ nl :: [] ++ nl :: []).
  change (md ++ nl :: nl :: lit "# " ++ title)
    with (md ++ nl :: [] ++ nl :: lit "# " ++ title).
  rewrite !extractSections_break, Ht. by rewrite !app_nil_r.
Qed.

(** X18: the next-section button.  When the catalog has an entry at the
    current section count, the new Markdown has the titles of the trimmed old
    Markdown followed by that entry, one metadata entry stamped 0 is appended,
    [json] is parsed from the new Markdown, and the locked list is what it
    was at every later time: scaffolding never locks.  When the catalog is
    used up the session is returned as it is. *)
Theorem next_section_appends_title (now : N) (st : DocumentState) :
  let next := handleNextSection now st in
  match INITIAL_SECTIONS !! length (extractSections (markdown st)) with
  | Some title =>
      extractSections (markdown next)
      = extractSections (trim (markdown st)) ++ [title]
      /\ sections next = sections st ++ [mkSectionMeta title 0 false]
      /\ json next = parseMarkdownToJSON (markdown next)
      /\ forall later,
          lockedSections later (sections next)
          = lockedSections later (sections st)
  | None => next = st
  end.
Proof.
  intros next. subst next.
  destruct (INITIAL_SECTIONS !! _) as [title|] eqn:E.
  - rewrite (handleNextSection_some now st title E).
    cbn [markdown sections json]. repeat split.
    + apply next_markdown_sections.
      by apply list_elem_of_In, (list_elem_of_lookup_2 _ _ _ E).
    + intros later. unfold lockedSections. rewrite filter_app.
      cbn [List.filter]. rewrite isLocked_scaffold. by rewrite app_nil_r.
  - unfold handleNextSection. rewrite E. by destruct (_ <=? _).
Qed.

(** The state of a session on which only the button has been pressed. *)
Lemma scaffold_step (now : N) (st : DocumentState) (k : nat) :
  1 <= k ->
  extractSections (markdown st) = take k INITIAL_SECTIONS ->
  extractSections (trim (markdown st)) = take k INITIAL_SECTIONS ->
  map id (sections st) = take k INITIAL_SECTIONS ->
  (forall later, lockedSections later (sections st) = []) ->
  let next := handleNextSection now st in
  extractSections (markdown next) = take (S k) INITIAL_SECTIONS
  /\ extractSections (trim (markdown next)) = take (S k) INITIAL_SECTIONS
  /\ map id (sections next) = take (S k) INITIAL_SECTIONS
  /\ (forall later, lockedSections later (sections next) = []).
Proof.
  intros Hk Hmd Htrim Hids Hlock next. subst next.
  destruct (INITIAL_SECTIONS !! k) as [title|] eqn:E.
  - assert (Hlen : length (extractSections (markdown st)) = k).
    { rewrite Hmd, length_take. apply lookup_lt_Some in E. lia. }
    assert (Hin : In title INITIAL_SECTIONS)
      by by apply list_elem_of_In, (list_elem_of_lookup_2 _ _ _ E).
    rewrite (handleNextSection_some now st title) by by rewrite Hlen.
    cbn [markdown sections].
    destruct (next_markdown_sections (trim (markdown st)) title Hin)
      as [H1 H2].
    rewrite (take_S_r _ _ _ E). repeat split.
    + by rewrite H1, Htrim.
    + assert (Hink : firstIsInk (trim (markdown st)) = true).
      { destruct (trim_shape (markdown st)) as [Hnil|[Hf _]]; [|done].
        rewrite Hnil in Htrim. destruct k; [lia|].
        apply lookup_lt_Some in E. by destruct INITIAL_SECTIONS. }
      rewrite !app_assoc. rewrite trim_block; [| |
        apply lastIsInk_app, (proj2 (catalog_titles title Hin))|done].
      * rewrite <- !app_assoc. by rewrite H2, Htrim.
      * rewrite <- !app_assoc. by apply firstIsInk_app.
    + by rewrite map_app, Hids.
    + intros later. unfold lockedSections. rewrite filter_app.
      cbn [List.filter]. rewrite isLocked_scaffold, app_nil_r.
      apply Hlock.
  - assert (handleNextSection now st = st) as ->.
    { unfold handleNextSection. rewrite Hmd, length_take.
      apply lookup_ge_None in E.
      replace (k `min` length INITIAL_SECTIONS)
        with (length INITIAL_SECTIONS) by lia.
      by rewrite Nat.leb_refl. }
    apply lookup_ge_None in E.
    rewrite (take_ge _ (S k)) by lia. rewrite (take_ge _ k) in * by lia.
    done.
Qed.

(** X19: the step-by-step flow.  On the initial session, after the button has
    been pressed any number of times and nothing else has happened, the
    section titles of the Markdown are the first entries of the catalog, one
    more than the number of presses (the whole catalog once it is used up),
    the metadata ids are those titles, and no section is locked at any
    time. *)
Theorem scaffolding_follows_catalog (start : N) (times : list N) (later : N) :
  let st := pressNext times (initialDocState start) in
  extractSections (markdown st) = take (S (length times)) INITIAL_SECTIONS
  /\ map id (sections st) = extractSections (markdown st)
  /\ lockedSections later (sections st) = [].
Proof.
  intros st.
  assert (H : extractSections (markdown st)
              = take (S (length times)) INITIAL_SECTIONS
              /\ extractSections (trim (markdown st))
                 = take (S (length times)) INITIAL_SECTIONS
              /\ map id (sections st)
                 = take (S (length times)) INITIAL_SECTIONS
              /\ forall t, lockedSections t (sections st) = []).
  { subst st. induction times as [|now times IH] using rev_ind.
    - repeat split; try (vm_compute; reflexivity).
      intros t. unfold lockedSections.
      change (sections (pressNext [] (initialDocState start)))
        with [mkSectionMeta firstSectionTitle 0 false].
      cbn [List.filter]. by rewrite isLocked_scaffold.
    - destruct IH as (H1 & H2 & H3 & H4). unfold pressNext.
      rewrite foldl_app. cbn [foldl]. rewrite length_app, Nat.add_1_r.
      apply scaffold_step; [lia|done..]. }
  destruct H as (H1 & _ & H3 & H4). by rewrite H3, H1, H4.
Qed.

(** ** Rewrite requests *)

Lemma updatedDocumentMarkdown_truthy (md : jsstring) (docCall : CallOutcome) :
  truthy md = true -> truthy (updatedDocumentMarkdown md docCall) = true.
Proof.
  intros H. destruct docCall as [|[t|]]; cbn [updatedDocumentMarkdown];
    try done. by destruct (truthy t) eqn:E.
Qed.

(** X20: on a session whose Markdown is not empty, a rewrite request leaves a
    coherent session however the document call ends (it throws, it returns no
    text, an empty text or a new document): the Markdown is not empty, [json]
    is the parse of the Markdown, the metadata ids are its section titles,
    and [lastUpdated] is the completion time. *)
Theorem rewrite_keeps_session_coherent (now : N) (docCall : CallOutcome)
    (st : DocumentState) :
  markdown st <> [] ->
  let next := requestRewrite now docCall st in
  markdown next <> []
  /\ json next = parseMarkdownToJSON (markdown next)
  /\ map id (sections next) = extractSections (markdown next)
  /\ lastUpdated next = now.
Proof.
  intros Hne next. subst next. unfold requestRewrite, applyRewriteResult.
  assert (Ht : truthy (markdown st) = true) by by destruct (markdown st).
  pose proof (updatedDocumentMarkdown_truthy _ docCall Ht) as Hu.
  rewrite Hu. cbn [markdown json sections lastUpdated].
  repeat split; try done.
  - by destruct (updatedDocumentMarkdown (markdown st) docCall).
  - apply (reconcile_ids _ _ now false).
Qed.

Lemma rewrite_keeps_session_coherent_witness :
  let next :=
    requestRewrite 1700000000000
      (Returned (Some (unlines [lit "# Problem"; []; lit "Churn is high."])))
      (initialDocState 1690000000000) in
  markdown next <> []
  /\ json next = parseMarkdownToJSON (markdown next)
  /\ map id (sections next) = extractSections (markdown next)
  /\ lastUpdated next = 1700000000000%N.
Proof.
  apply (rewrite_keeps_session_coherent 1700000000000
           (Returned (Some (unlines [lit "# Problem"; [];
                                     lit "Churn is high."])))
           (initialDocState 1690000000000)).
  vm_compute. discriminate.
Defined.

(** ** The editor and its own edits *)

(** X21: the content sync never resets the editor after the editor's own
    update: with the Markdown that [handleDocUpdate] stored for the blocks the
    editor holds, the effect sets no content, also once the internal-update
    flag has been cleared. *)
Theorem editor_keeps_own_edit (now : N) (editorJson : JSONContent)
    (prev : DocumentState) (isInternalUpdate : bool) :
  syncContent isInternalUpdate editorJson
    (markdown (applyUserEdit now editorJson prev))
  = None.
Proof.
  assert (markdown (applyUserEdit now editorJson prev)
          = serializeToMarkdown editorJson) as ->.
  { unfold applyUserEdit, handleDocUpdate, streq. by case_bool_decide. }
  unfold syncContent, streq. destruct (_ && _); [|done].
  by rewrite bool_decide_eq_true_2.
Qed.

(** ** The slash menu *)

(** X22: in a menu with at least one item and a selected index inside it,
    ArrowUp and ArrowDown keep the index inside the menu, undo each other,
    and wrap around: up from the first item is the last, down from the last
    is the first. *)
Theorem slash_menu_navigation (len i : Z) :
  (0 < len)%Z -> (0 <= i < len)%Z ->
  (0 <= arrowUp len i < len)%Z
  /\ (0 <= arrowDown len i < len)%Z
  /\ arrowDown len (arrowUp len i) = i
  /\ arrowUp len (arrowDown len i) = i
  /\ arrowUp len 0 = (len - 1)%Z
  /\ arrowDown len (len - 1) = 0%Z.
Proof.
  intros Hlen Hi.
  assert (Hup : forall j, (0 <= j < len)%Z ->
             arrowUp len j = if (j =? 0)%Z then (len - 1)%Z else (j - 1)%Z).
  { intros j Hj. unfold arrowUp. rewrite Z.rem_mod_nonneg by lia.
    destruct (Z.eqb_spec j 0) as [->|Hne].
    - apply Z.mod_small. lia.
    - replace (j + len - 1)%Z with (j - 1 + 1 * len)%Z by lia.
      rewrite Z.mod_add by lia. apply Z.mod_small. lia. }
  assert (Hdown : forall j, (0 <= j < len)%Z ->
             arrowDown len j = if (j =? len - 1)%Z then 0%Z else (j + 1)%Z).
  { intros j Hj. unfold arrowDown. rewrite Z.rem_mod_nonneg by lia.
    destruct (Z.eqb_spec j (len - 1)) as [->|Hne].
    - replace (len - 1 + 1)%Z with len by lia. by apply Z_mod_same_full.
    - apply Z.mod_small. lia. }
  assert (Hu : (0 <= arrowUp len i < len)%Z)
    by (rewrite Hup by lia; destruct (Z.eqb_spec i 0); lia).
  assert (Hd : (0 <= arrowDown len i < len)%Z)
    by (rewrite Hdown by lia; destruct (Z.eqb_spec i (len - 1)); lia).
  split; [done|]. split; [done|]. repeat split.
  - rewrite (Hdown _ Hu), (Hup i Hi).
    destruct (Z.eqb_spec i 0);
      match goal with
      | |- context [(?a =? ?b)%Z] => destruct (Z.eqb_spec a b)
      end; lia.
  - rewrite (Hup _ Hd), (Hdown i Hi).
    destruct (Z.eqb_spec i (len - 1));
      match goal with
      | |- context [(?a =? ?b)%Z] => destruct (Z.eqb_spec a b)
      end; lia.
  - rewrite Hup by lia. done.
  - rewrite Hdown by lia. by rewrite Z.eqb_refl.
Qed.

Lemma slash_menu_navigation_witness :
  (0 <= arrowUp 10 0 < 10)%Z
  /\ (0 <= arrowDown 10 0 < 10)%Z
  /\ arrowDown 10 (arrowUp 10 0) = 0%Z
  /\ arrowUp 10 (arrowDown 10 0) = 0%Z
  /\ arrowUp 10 0 = (10 - 1)%Z
  /\ arrowDown 10 (10 - 1) = 0%Z.
Proof. apply (slash_menu_navigation 10 0); lia. Defined.
